(** * lecture2obsidian: chunking, marker-file state and pipeline clean-up

    A shallow embedding of the parts of the tool that carry invariants:

    - [summarize.py]: the overlapping word windows of [_chunk_transcript] and
      the backend calls issued by [summarize_transcript];
    - [app/transcribe.py]: the chunk arithmetic of [split_audio] and the
      [try]/[finally] clean-up of [_transcribe_api];
    - [app/state.py]: the marker file read by [get_recording_info] and probed
      by [is_recording];
    - [app/cli.py]: the pipeline of [record_internal] and the [status] command.

    Python [str] values are sequences of Unicode code points, Python [int]s are
    [Z], and every effectful function threads an explicit world through a
    small result monad that tells a returned value from a raised exception and
    from [sys.exit].  Console output ([print], [click.echo], [logging]) is not
    part of any world below. *)

From Stdlib Require Import ZArith QArith Qround Lia List String Ascii.
From Stdlib Require Import DecimalFacts DecimalN.
From stdpp Require Import base option list gmap sets strings.

#[local] Open Scope Z_scope.

(** ** Python values shared by all modules *)

Module Py.

(** A [str] is its sequence of code points. *)
Definition str : Type := list N.

(** An ASCII literal of the source, as code points. *)
Definition lit (s : string) : str :=
  List.map N_of_ascii (list_ascii_of_string s).

Definition len {A} (l : list A) : Z := Z.of_nat (length l).

(** Index normalisation of a slice bound: negative bounds count from the
    end, and everything is clamped to [0, len]. *)
Definition clamp (n i : Z) : Z :=
  if i <? 0 then Z.max 0 (i + n) else Z.min i n.

(** [l[lo:hi]] *)
Definition slice {A} (l : list A) (lo hi : Z) : list A :=
  let lo' := clamp (len l) lo in
  let hi' := clamp (len l) hi in
  take (Z.to_nat (hi' - lo')) (drop (Z.to_nat lo') l).

(** [str.isspace] on one code point: the Unicode white space that
    [str.split()] and [str.strip()] use. *)
Definition isspace (c : N) : bool :=
  ((9 <=? c) && (c <=? 13) || (28 <=? c) && (c <=? 32)
   || (c =? 133) || (c =? 160) || (c =? 5760)
   || (8192 <=? c) && (c <=? 8202)
   || (c =? 8232) || (c =? 8233) || (c =? 8239) || (c =? 8287)
   || (c =? 12288))%N.

(** [s.split()]: scan left to right, [cur] is the word being read. *)
Fixpoint split_go (cur : str) (s : str) : list str :=
  match s with
  | [] => match cur with [] => [] | _ => [cur] end
  | c :: s' =>
      if isspace c
      then match cur with
           | [] => split_go [] s'
           | _ => cur :: split_go [] s'
           end
      else split_go (cur ++ [c]) s'
  end.

Definition split (s : str) : list str := split_go [] s.

(** [sep.join(l)] *)
Fixpoint join (sep : str) (l : list str) : str :=
  match l with
  | [] => []
  | [x] => x
  | x :: l' => x ++ sep ++ join sep l'
  end.

Fixpoint lstrip (s : str) : str :=
  match s with
  | c :: s' => if isspace c then lstrip s' else s
  | [] => []
  end.

Definition rstrip (s : str) : str := rev (lstrip (rev s)).

(** [s.strip()] *)
Definition strip (s : str) : str := lstrip (rstrip s).

Definition em_dash : str := [8212%N].

Definition digit (d : N) : N := (48 + d)%N.

Fixpoint digits_of_uint (u : Decimal.uint) : str :=
  match u with
  | Decimal.Nil => []
  | Decimal.D0 u => digit 0 :: digits_of_uint u
  | Decimal.D1 u => digit 1 :: digits_of_uint u
  | Decimal.D2 u => digit 2 :: digits_of_uint u
  | Decimal.D3 u => digit 3 :: digits_of_uint u
  | Decimal.D4 u => digit 4 :: digits_of_uint u
  | Decimal.D5 u => digit 5 :: digits_of_uint u
  | Decimal.D6 u => digit 6 :: digits_of_uint u
  | Decimal.D7 u => digit 7 :: digits_of_uint u
  | Decimal.D8 u => digit 8 :: digits_of_uint u
  | Decimal.D9 u => digit 9 :: digits_of_uint u
  end.

(** [f"{n}"] for a non-negative [int]. *)
Definition fmt_d (n : Z) : str := digits_of_uint (N.to_uint (Z.to_N n)).

(** [f"{n:03d}"] for a non-negative [int]: zero padded to width three. *)
Definition fmt_03d (n : Z) : str :=
  let s := fmt_d n in
  replicate (3 - length s)%nat (digit 0) ++ s.

(** [enumerate(l, 1)] *)
Definition enumerate1 {A} (l : list A) : list (Z * A) :=
  imap (fun i x => (Z.of_nat i + 1, x)) l.

(** A word, as [split] produces them: non-empty and free of white space. *)
Definition is_word (w : str) : Prop :=
  w <> [] /\ forallb (fun c => negb (isspace c)) w = true.

End Py.

(** ** Outcomes of an effectful call *)

(** The exceptions the modelled code tells apart.  [SystemExit] is what
    [sys.exit] raises; it is not an [Exception] subclass, so
    [except Exception] lets it through, while [finally] still runs. *)
Inductive exn : Type :=
| AuthenticationError
| OpenAIError
| ProcessLookupError
| PermissionError
| AttributeError
| TypeError
| YAMLError
| OSError
| RuntimeError
| ValueError
| IndexError
| SystemExit (code : Z).

(** [isinstance(e, Exception)] *)
Definition is_Exception (e : exn) : bool :=
  match e with
  | SystemExit _ => false
  | _ => true
  end.

Inductive result (A : Type) : Type :=
| Return (a : A)
| Raise (e : exn).
Arguments Return {A} a.
Arguments Raise {A} e.

(** A computation over a world [W]. *)
Definition M (W A : Type) : Type := W -> W * result A.

Definition ret {W A} (a : A) : M W A := fun w => (w, Return a).
Definition raise {W A} (e : exn) : M W A := fun w => (w, Raise e).
Definition bind {W A B} (m : M W A) (k : A -> M W B) : M W B :=
  fun w =>
    match m w with
    | (w', Return a) => k a w'
    | (w', Raise e) => (w', Raise e)
    end.

(** [sys.exit(code)] *)
Definition sys_exit {W A} (code : Z) : M W A := raise (SystemExit code).

(** [try: body except ...: handler]: [handler e] is [None] when no
    [except] clause matches [e], which then propagates. *)
Definition try_except {W A} (body : M W A) (handler : exn -> option (M W A))
  : M W A :=
  fun w =>
    match body w with
    | (w', Return a) => (w', Return a)
    | (w', Raise e) =>
        match handler e with
        | Some h => h w'
        | None => (w', Raise e)
        end
    end.

(** [try: body finally: cleanup]: the clean-up runs on every way out of the
    body, and an exception of the clean-up replaces the body's outcome. *)
Definition try_finally {W A} (body : M W A) (cleanup : M W unit) : M W A :=
  fun w =>
    match body w with
    | (w', r) =>
        match cleanup w' with
        | (w'', Return _) => (w'', r)
        | (w'', Raise e) => (w'', Raise e)
        end
    end.

Declare Scope py_scope.
Delimit Scope py_scope with py.
Notation "x <- m ;; k" := (bind m (fun x => k))
  (at level 100, m at next level, right associativity) : py_scope.
Notation "m ;;; k" := (bind m (fun _ => k))
  (at level 100, right associativity) : py_scope.

(** [for x in l: acc = body acc x] *)
Fixpoint for_fold {W A S} (l : list A) (body : S -> A -> M W S) (s : S)
  : M W S :=
  match l with
  | [] => ret s
  | x :: l' => bind (body s x) (for_fold l' body)
  end.

(** What a remote backend does with one call: it answers with a text or
    the client library raises. *)
Inductive api_outcome : Type :=
| Responded (content : Py.str)
| Failed (e : exn).

(** ** summarize.py *)

Module Summarize.
Import Py.

Definition _CHUNK_WORDS : Z := 8000.
Definition _OVERLAP_WORDS : Z := 500.

Definition nl : str := [10%N].
Definition quote : str := [34%N].
Definition en_dash : str := [8211%N].

Definition _SYSTEM_PROMPT : str :=
  lit "You are an expert note-taker converting a raw lecture transcript into clean, structured study notes." ++ nl
  ++ nl
  ++ lit "Follow these rules exactly:" ++ nl
  ++ lit "- Organize content under clear Markdown headings (##, ###) that mirror the lecture's logical flow." ++ nl
  ++ lit "- Write definitions using the pattern: **Definition:** <term> " ++ em_dash ++ lit " <concise explanation>" ++ nl
  ++ lit "- Convert ALL mathematical expressions to LaTeX: use $...$ for inline math and $$...$$ for display equations." ++ nl
  ++ lit "- Use bullet points for key ideas, kept concise " ++ em_dash ++ lit " capture the concept, not the lecturer's wording." ++ nl
  ++ lit "- Include important examples but only if they illuminate a concept; skip trivial or repetitive ones." ++ nl
  ++ lit "- Remove filler words, digressions, repeated explanations, and off-topic remarks entirely." ++ nl
  ++ lit "- Preserve the logical ordering of topics as they were introduced." ++ nl
  ++ lit "- Output clean Markdown only. No preamble, no " ++ quote ++ lit "Here are your notes:" ++ quote ++ lit ", no explanation." ++ nl
  ++ lit "- Target roughly 20" ++ en_dash ++ lit "30% of the original transcript length." ++ nl.

Definition _MERGE_SYSTEM_PROMPT : str :=
  lit "You are merging several partial lecture note summaries into a single coherent set of notes." ++ nl
  ++ nl
  ++ lit "Follow these rules:" ++ nl
  ++ lit "- Merge all sections into one unified document with consistent Markdown headings." ++ nl
  ++ lit "- Remove any duplicate content " ++ em_dash ++ lit " keep the clearest version of each concept." ++ nl
  ++ lit "- Ensure logical flow matches the original lecture order (earlier chunks come first)." ++ nl
  ++ lit "- Maintain all LaTeX math expressions, bold definitions, and bullet formatting." ++ nl
  ++ lit "- Output clean Markdown only. No preamble or explanation." ++ nl.

Definition _word_count (text : str) : Z := len (split text).

(** The [while] loop of [_chunk_transcript], over the number [n] of words.
    [emit start end] is what one iteration appends; the loop itself only
    looks at [n].  [None] is a run that outlives its fuel. *)
Fixpoint chunk_loop {A} (emit : Z -> Z -> A) (fuel : nat) (n : Z)
    (start : Z) (chunks : list A) : option (list A) :=
  match fuel with
  | O => None
  | S fuel' =>
      if start <? n then
        let end_ := start + _CHUNK_WORDS in
        let chunks := chunks ++ [emit start end_] in
        if end_ >=? n then Some chunks
        else chunk_loop emit fuel' n (end_ - _OVERLAP_WORDS) chunks
      else Some chunks
  end.

(** What the source appends: [" ".join(words[start:end])]. *)
Definition chunk_text (words : list str) (start end_ : Z) : str :=
  join (lit " ") (slice words start end_).

(** The word range an iteration covers: [words[start:end]] stops at
    [len(words)]. *)
Definition chunk_span (words : list str) (start end_ : Z) : Z * Z :=
  (start, Z.min end_ (len words)).

Definition _chunk_transcript_fuel (fuel : nat) (transcript : str)
  : option (list str) :=
  let words := split transcript in
  chunk_loop (chunk_text words) fuel (len words) 0 [].

(** The loop never needs more iterations than there are words (it needs
    far fewer, see [chunk_loop_runs]). *)
Definition _chunk_transcript (transcript : str) : list str :=
  default [] (_chunk_transcript_fuel (S (length (split transcript))) transcript).

(** The transcript chunk plan: the word ranges of the chunks, in order. *)
Definition chunk_plan (words : list str) : list (Z * Z) :=
  default [] (chunk_loop (chunk_span words) (S (length words)) (len words) 0 []).

(** The window step: each iteration moves [start] by this much. *)
Definition stride : Z := _CHUNK_WORDS - _OVERLAP_WORDS.

(** The number of iterations the loop performs on [n] words. *)
Definition iterations (n : Z) : nat :=
  if n <=? 0 then O
  else S (Z.to_nat ((Z.max n _CHUNK_WORDS - _CHUNK_WORDS + (stride - 1)) / stride)).

(** The [i]-th window, as the loop variables [start] and [end]. *)
Definition window (start : Z) (i : nat) : Z * Z :=
  (start + stride * Z.of_nat i, start + stride * Z.of_nat i + _CHUNK_WORDS).

Definition windows {A} (emit : Z -> Z -> A) (start : Z) (k : nat) : list A :=
  List.map (fun i => emit (window start i).1 (window start i).2) (seq 0 k).

(** The words of the chunks put back together: all words of the first
    chunk, and of every later chunk all but its first [_OVERLAP_WORDS]. *)
Definition stitch (chunks : list str) : list str :=
  match chunks with
  | [] => []
  | c :: rest =>
      split c ++
      concat (List.map (fun c => drop (Z.to_nat _OVERLAP_WORDS) (split c)) rest)
  end.

(** One chat completion request. *)
Record request : Type := mk_request {
  req_model : str;
  req_system : str;
  req_user : str
}.

Section Backend.

(** The summarization backend: its answer may depend on the calls made
    before. *)
Variable complete : list request -> request -> api_outcome.

(** The world of this module: the calls issued so far, in order. *)
Definition llm_calls : Type := list request.

(** [openai.chat.completions.create(...)] with a system and a user
    message, then [.choices[0].message.content]. *)
Definition chat_completions_create (model system user : str) : M llm_calls str :=
  fun w =>
    let q := mk_request model system user in
    match complete w q with
    | Responded content => (w ++ [q], Return content)
    | Failed e => (w ++ [q], Raise e)
    end.

Definition _call_llm (system user model : str) : M llm_calls str :=
  try_except
    (content <- chat_completions_create model system user ;;
     ret (strip content))%py
    (fun e =>
       match e with
       | AuthenticationError => Some (sys_exit 1)
       | OpenAIError => Some (sys_exit 1)
       | _ => None
       end).

Definition sep_rule : str := nl ++ nl ++ lit "---" ++ nl ++ nl.

Definition context_header (title : str) (course : option str) : str :=
  let h := lit "Lecture: " ++ title in
  match course with
  | Some (c :: cs) => h ++ nl ++ lit "Course: " ++ (c :: cs)
  | _ => h
  end.

(** The user message of chunk [i] of [n]. *)
Definition chunk_user_msg (header : str) (n : Z) (i : Z) (chunk : str) : str :=
  header ++ nl
  ++ lit "(Part " ++ fmt_d i ++ lit " of " ++ fmt_d n ++ lit ")" ++ nl ++ nl
  ++ lit "---" ++ nl ++ nl
  ++ chunk.

Definition merge_input (partial_summaries : list str) : str :=
  join sep_rule
    (List.map (fun '(i, s) => lit "## Chunk " ++ fmt_d i ++ nl ++ nl ++ s)
       (enumerate1 partial_summaries)).

Definition summarize_transcript (transcript title : str) (course : option str)
    (model : str) : M llm_calls str :=
  let header := context_header title course in
  let word_count := _word_count transcript in
  if word_count <=? 10000 then
    _call_llm _SYSTEM_PROMPT (header ++ sep_rule ++ transcript) model
  else
    let chunks := _chunk_transcript transcript in
    (partial_summaries <-
       for_fold (enumerate1 chunks)
         (fun acc '(i, chunk) =>
            s <- _call_llm _SYSTEM_PROMPT
                   (chunk_user_msg header (len chunks) i chunk) model ;;
            ret (acc ++ [s]))
         [] ;;
     _call_llm _MERGE_SYSTEM_PROMPT
       (header ++ sep_rule ++ merge_input partial_summaries) model)%py.

End Backend.

(** A backend that answers every call. *)
Definition responsive (complete : list request -> request -> api_outcome) : Prop :=
  forall h q, exists content, complete h q = Responded content.

(** The requests of the map step: one per chunk, in chunk order. *)
Definition chunk_requests (model header : str) (chunks : list str) : list request :=
  List.map
    (fun '(i, chunk) =>
       mk_request model _SYSTEM_PROMPT (chunk_user_msg header (len chunks) i chunk))
    (enumerate1 chunks).

(** The request of the merge step. *)
Definition merge_request (model header : str) (partial_summaries : list str) : request :=
  mk_request model _MERGE_SYSTEM_PROMPT
    (header ++ sep_rule ++ merge_input partial_summaries).

(** Sample inputs: a transcript of [n] one-letter words, and a backend
    that answers every request with its own user message. *)
Definition sample_transcript (n : Z) : str :=
  join (lit " ") (replicate (Z.to_nat n) (lit "w")).

Definition echo (h : list request) (q : request) : api_outcome :=
  Responded (req_user q).

Definition llm_down (h : list request) (q : request) : api_outcome :=
  Failed OpenAIError.

End Summarize.

(** ** app/transcribe.py *)

Module Transcribe.
Import Py.

(** A [pathlib.Path], as its components. *)
Definition path : Type := list str.

(** [p / name] *)
Definition child (p : path) (name : str) : path := p ++ [name].

(** [p.parent] *)
Definition parent (p : path) : path := removelast p.

(** What a file holds: some audio, or the piece [start_ms:end_ms] that
    [split_audio] exported from it. *)
Inductive content : Type :=
| Audio
| Piece (start_ms end_ms : Z).

(** The disk: the files and directories on disk and the transcription
    calls issued so far, each by the path of the file sent. *)
Record disk : Type := mk_disk {
  files : gmap path content;
  dirs : gset path;
  calls : list path
}.

(** What [stat] and [AudioSegment.from_file] see of the input file. *)
Record audio_file : Type := mk_audio {
  audio_path : path;
  st_size : Z;          (* bytes *)
  duration_ms : Z;      (* len(audio) *)
  suffix : str
}.

(** [int(x)] on a number: truncation towards zero.  The source computes
    the quotient in double precision; for sizes below 2^53 bytes the
    division by 2^20 is exact and the rounding of the division by 24
    never reaches the next integer, so the exact quotient is used here. *)
Definition py_int (x : Q) : Z :=
  if Qle_bool 0 x then Qfloor x else Qceiling x.

Definition file_size_mb (size : Z) : Q :=
  (inject_Z size / inject_Z (1024 * 1024))%Q.

Definition num_chunks (size max_size_mb : Z) : Z :=
  py_int (file_size_mb size / inject_Z max_size_mb)%Q + 1.

(** [range(n)] *)
Definition range (n : Z) : list Z := List.map Z.of_nat (seq 0 (Z.to_nat n)).

(** The time range of chunk [i], as the loop body of [split_audio]
    computes it. *)
Definition chunk_range (audio_len n chunk_duration_ms i : Z) : Z * Z :=
  let start_ms := i * chunk_duration_ms in
  let end_ms := if i <? n - 1 then start_ms + chunk_duration_ms else audio_len in
  (start_ms, end_ms).

(** The audio chunk plan: the time ranges in index order. *)
Definition audio_chunk_plan (size audio_len max_size_mb : Z) : list (Z * Z) :=
  let n := num_chunks size max_size_mb in
  let chunk_duration_ms := audio_len / n in
  List.map (chunk_range audio_len n chunk_duration_ms) (range n).

Definition chunk_name (i : Z) (sfx : str) : str :=
  lit "chunk_" ++ fmt_03d i ++ sfx.

(** [tempfile.mkdtemp]: creates a directory that did not exist before, so
    nothing lies under it. *)
Definition new_dir (w : disk) : path :=
  fresh (dirs w ∪ set_map parent (dom (files w))).

Definition mkdtemp : M disk path :=
  fun w =>
    let d := new_dir w in
    (mk_disk (files w) ({[d]} ∪ dirs w) (calls w), Return d).

(** [chunk.export(str(chunk_path), ...)] writes the piece to disk. *)
Definition export (p : path) (c : content) : M disk unit :=
  fun w => (mk_disk (<[p := c]> (files w)) (dirs w) (calls w), Return tt).

(** [p.unlink(missing_ok=True)] *)
Definition unlink (p : path) : M disk unit :=
  fun w => (mk_disk (delete p (files w)) (dirs w) (calls w), Return tt).

(** [p.rmdir()]: only an existing, empty directory can be removed. *)
Definition rmdir (d : path) : M disk unit :=
  fun w =>
    if decide (d ∈ dirs w /\ d ∉ (set_map parent (dom (files w)) : gset path))
    then (mk_disk (files w) (dirs w ∖ {[d]}) (calls w), Return tt)
    else (w, Raise OSError).

Definition split_audio (a : audio_file) (max_size_mb : Z) : M disk (list path) :=
  let audio_len := duration_ms a in
  let n := num_chunks (st_size a) max_size_mb in
  let chunk_duration_ms := audio_len / n in
  (tmp_dir <- mkdtemp ;;
   for_fold (range n)
     (fun chunk_paths i =>
        let '(start_ms, end_ms) := chunk_range audio_len n chunk_duration_ms i in
        let chunk_path := child tmp_dir (chunk_name i (suffix a)) in
        export chunk_path (Piece start_ms end_ms) ;;;
        ret (chunk_paths ++ [chunk_path]))
     [])%py.

Section Backend.

(** The transcription backend: its answer may depend on the calls made
    before. *)
Variable transcribe : list path -> path -> api_outcome.

(** [open(p, "rb")] needs the file; then one backend call. *)
Definition transcriptions_create (p : path) : M disk str :=
  fun w =>
    match files w !! p with
    | None => (w, Raise OSError)
    | Some _ =>
        let w' := mk_disk (files w) (dirs w) (calls w ++ [p]) in
        match transcribe (calls w) p with
        | Responded text => (w', Return text)
        | Failed e => (w', Raise e)
        end
    end.

Definition _transcribe_single (p : path) : M disk str :=
  try_except (transcriptions_create p)
    (fun e =>
       match e with
       | AuthenticationError => Some (sys_exit 1)
       | OpenAIError => Some (sys_exit 1)
       | _ => None
       end).

Definition _transcribe_api (a : audio_file) : M disk str :=
  if Qle_bool (file_size_mb (st_size a)) (inject_Z 24) then
    _transcribe_single (audio_path a)
  else
    (chunk_paths <- split_audio a 24 ;;
     match chunk_paths with
     | [] => raise IndexError
     | first :: _ =>
         let tmp_dir := parent first in
         try_finally
           (parts <- for_fold chunk_paths
                       (fun parts chunk_path =>
                          text <- _transcribe_single chunk_path ;;
                          ret (parts ++ [text]))
                       [] ;;
            ret (join (lit " ") parts))
           (for_fold chunk_paths (fun _ chunk_path => unlink chunk_path) tt ;;;
            rmdir tmp_dir)
     end)%py.

End Backend.

(** The paths [split_audio] returns when run on the disk [w]. *)
Definition chunk_paths_of (a : audio_file) (w : disk) : list path :=
  List.map (fun i => child (new_dir w) (chunk_name i (suffix a)))
    (range (num_chunks (st_size a) 24)).

(** The files [split_audio] writes when run on the disk [w]: the pieces of
    the audio chunk plan, in index order. *)
Definition exported (a : audio_file) (w : disk) : list (path * content) :=
  zip (chunk_paths_of a w)
    (List.map (fun '(s, e) => Piece s e)
       (audio_chunk_plan (st_size a) (duration_ms a) 24)).

(** What leaves [_transcribe_single] when the backend call raises [e]. *)
Definition single_exn (e : exn) : exn :=
  match e with
  | AuthenticationError => SystemExit 1
  | OpenAIError => SystemExit 1
  | _ => e
  end.

(** How [_transcribe_single] maps the backend's outcome. *)
Definition single_result (o : api_outcome) : result str :=
  match o with
  | Responded text => Return text
  | Failed e => Raise (single_exn e)
  end.

(** Writing, and unlinking, a list of files one after the other. *)
Definition write_all (m : gmap path content) (l : list (path * content))
  : gmap path content :=
  foldl (fun m '(p, c) => <[p := c]> m) m l.

Definition delete_all (m : gmap path content) (ps : list path)
  : gmap path content :=
  foldl (fun m p => delete p m) m ps.

(** Sample inputs: a 30 MB recording of ten minutes, an empty disk, and
    a backend that is down. *)
Definition sample_audio : audio_file :=
  mk_audio [lit "lecture.mp3"] 31457280 600000 (lit ".mp3").

Definition empty_disk : disk := mk_disk ∅ ∅ [].

Definition whisper_down (h : list path) (p : path) : api_outcome :=
  Failed OpenAIError.


End Transcribe.

(** ** app/state.py *)

Module State.
Import Py.

(** A scalar of the marker file, as [yaml.safe_load] builds it. *)
Inductive pyobj : Type :=
| ONone
| OBool (b : bool)
| OInt (z : Z)
| OStr (s : str)
| OOther.            (* a float, a list, a nested mapping, ... *)

(** What [yaml.safe_load] returns: a mapping with string keys, or
    something else. *)
Inductive loaded : Type :=
| LDict (d : gmap str pyobj)
| LObj (o : pyobj).

(** The marker file [STATE_FILE]. *)
Inductive marker : Type :=
| Missing
| Unreadable           (* exists, but [open] fails *)
| Content (s : str).

(** The host: the marker file, and what probing a process id with
    signal 0 gives ([None]: the call returns). *)
Record host : Type := mk_host {
  state_file : marker;
  kill0 : Z -> option exn
}.

Definition exists_ (m : marker) : bool :=
  match m with
  | Missing => false
  | _ => true
  end.

Section Yaml.

(** [yaml.safe_load] on the text of a file; [None] when the text does
    not parse and the library raises its [YAMLError]. *)
Variable safe_load : str -> option loaded.

(** A marker file that is missing, cannot be opened or does not parse. *)
Definition unusable (m : marker) : Prop :=
  match m with
  | Missing => True
  | Unreadable => True
  | Content s => safe_load s = None
  end.

(** [with open(STATE_FILE) as f: return yaml.safe_load(f)] *)
Definition open_and_load : M host loaded :=
  fun w =>
    match state_file w with
    | Missing => (w, Raise OSError)
    | Unreadable => (w, Raise OSError)
    | Content s =>
        match safe_load s with
        | Some v => (w, Return v)
        | None => (w, Raise YAMLError)
        end
    end.

Definition get_recording_info : M host loaded :=
  fun w =>
    if negb (exists_ (state_file w)) then (w, Return (LObj ONone))
    else
      try_except open_and_load
        (fun e => if is_Exception e then Some (ret (LObj ONone)) else None) w.

(** [STATE_FILE.unlink(missing_ok=True)] *)
Definition clear_state : M host unit :=
  fun w => (mk_host Missing (kill0 w), Return tt).

(** [info.get(key)] *)
Definition get (info : loaded) (key : str) : M host pyobj :=
  match info with
  | LDict d => ret (default ONone (d !! key))
  | LObj _ => raise AttributeError
  end.

(** [os.kill(pid, 0)] *)
Definition os_kill0 (pid : pyobj) : M host unit :=
  fun w =>
    let probe z := match kill0 w z with
                   | None => (w, Return tt)
                   | Some e => (w, Raise e)
                   end in
    match pid with
    | OInt z => probe z
    | OBool b => probe (Z.b2z b)
    | _ => (w, Raise TypeError)
    end.

Definition is_None (o : loaded) : bool :=
  match o with
  | LObj ONone => true
  | _ => false
  end.

Definition is_recording : M host bool :=
  (fun w =>
     if negb (exists_ (state_file w)) then (w, Return false)
     else
       (info <- get_recording_info ;;
        if is_None info then ret false
        else
          pid <- get info (lit "pid") ;;
          match pid with
          | ONone => clear_state ;;; ret false
          | _ =>
              try_except (os_kill0 pid ;;; ret true)
                (fun e =>
                   match e with
                   | ProcessLookupError => Some (clear_state ;;; ret false)
                   | PermissionError => Some (ret true)
                   | _ => None
                   end)
          end) w)%py.

End Yaml.

(** Sample inputs: a loader that knows one marker text, and hosts whose
    marker file holds that text or a text that does not parse. *)
Definition sample_load (s : str) : option loaded :=
  if decide (s = lit "pid: 4242")
  then Some (LDict {[ lit "pid" := OInt 4242 ]})
  else None.


Definition corrupt_host : host :=
  mk_host (Content (lit "{pid: ")) (fun _ => None).

End State.

(** ** app/cli.py *)

Module Cli.
Import Py.

(** Where the captured WAV file is. *)
Inductive wav_state : Type :=
| NotCaptured
| OnDisk               (* at the path [recorder.stop()] returned *)
| Archived             (* moved to the archive directory *)
| Deleted.

(** The world of the background unit: the host with its marker file, the
    raw audio and the notifications sent so far. *)
Record world : Type := mk_world {
  marker_host : State.host;
  wav : wav_state;
  notifications : list (str * str)
}.

(** What the configuration file gives the pipeline. *)
Record config : Type := mk_config {
  model : str;
  archive_dir : option str
}.

(** The collaborators of one run, each by what its single call does:
    return, raise an exception, or leave through [sys.exit]. *)
Record run : Type := mk_run {
  recorder_start : result unit;
  recorder_stop : result unit;
  load_config : result config;
  transcribe_audio : result str;
  summarize_transcript : str -> result str;
  write_notes : result unit;
  archive_fs : result unit;     (* the [mkdir] and [rename], or the [unlink] *)
  exn_text : exn -> str         (* [str(exc)] *)
}.

(** A function of [app.state], run on the host of this world. *)
Definition on_host {A} (m : M State.host A) : M world A :=
  fun w =>
    let '(h, res) := m (marker_host w) in
    (mk_world h (wav w) (notifications w), res).

Section Run.

Variable home : str.
Variable r : run.

Definition LOG_FILE : str := home ++ lit "/.lecture-to-obsidian/record.log".

Definition cross_mark : str := [10060%N].
Definition check_mark : str := [9989%N].

Definition failure_title : str := cross_mark ++ lit " lecture-to-obsidian".
Definition success_title : str := check_mark ++ lit " lecture-to-obsidian".

(** A collaborator's call, with no effect on this world. *)
Definition call {A} (outcome : result A) : M world A := fun w => (w, outcome).

(** [send_notification]: best effort, never raises. *)
Definition send_notification (title message : str) : M world unit :=
  fun w =>
    (mk_world (marker_host w) (wav w) (notifications w ++ [(title, message)]),
     Return tt).

(** [recorder.stop()]: on success the WAV file is on disk. *)
Definition stop : M world unit :=
  fun w =>
    match recorder_stop r with
    | Return _ => (mk_world (marker_host w) OnDisk (notifications w), Return tt)
    | Raise e => (w, Raise e)
    end.

(** [_archive_wav]: move the WAV to the archive directory when one is
    configured (a non-empty string), delete it otherwise. *)
Definition _archive_wav (cfg : config) : M world unit :=
  fun w =>
    match archive_fs r with
    | Raise e => (w, Raise e)
    | Return _ =>
        match archive_dir cfg with
        | Some (_ :: _) =>
            (mk_world (marker_host w) Archived (notifications w), Return tt)
        | _ => (mk_world (marker_host w) Deleted (notifications w), Return tt)
        end
    end.

(** The body of the [try] of [record_internal]. *)
Definition pipeline (course : str) : M world unit :=
  (stop ;;;
   cfg <- call (load_config r) ;;
   transcript <- call (transcribe_audio r) ;;
   summary <- call (summarize_transcript r transcript) ;;
   call (write_notes r) ;;;
   _archive_wav cfg ;;;
   send_notification success_title (course ++ lit " notes ready in Inbox"))%py.

(** [record_internal], from the start of the recorder on.  Between the
    two [try] blocks the unit only waits for its stop signal. *)
Definition record_internal (course : str) : M world unit :=
  (try_except (call (recorder_start r))
     (fun exc =>
        if is_Exception exc then
          Some (send_notification failure_title
                  (lit "Mic error: " ++ exn_text r exc) ;;;
                on_host State.clear_state ;;;
                sys_exit 1)
        else None) ;;;
   try_except (pipeline course)
     (fun exc =>
        if is_Exception exc then
          Some (send_notification failure_title
                  (lit "Pipeline failed " ++ em_dash ++ lit " check " ++ LOG_FILE) ;;;
                on_host State.clear_state ;;;
                sys_exit 1)
        else None) ;;;
   on_host State.clear_state)%py.

End Run.

(** What [clear_state] leaves of a world. *)
Definition cleared (w : world) : world :=
  mk_world (State.mk_host State.Missing (State.kill0 (marker_host w)))
    (wav w) (notifications w).

(** The two closing notifications. *)
Definition failure_notice (home : str) : str * str :=
  (failure_title, lit "Pipeline failed " ++ em_dash ++ lit " check " ++ LOG_FILE home).

Definition success_notice (course : str) : str * str :=
  (success_title, course ++ lit " notes ready in Inbox").

(** Sample input: a run whose recorder, configuration, transcription and
    vault all work, and whose summarizer is [summarize_transcript] against
    a backend that is down; and the world of a unit that is recording. *)
Definition sample_run : run :=
  mk_run (Return tt) (Return tt)
    (Return (mk_config (lit "gpt-4o-mini") None))
    (Return (lit "sets and relations"))
    (fun transcript =>
       (Summarize.summarize_transcript Summarize.llm_down transcript
          (lit "Lecture") (Some (lit "CS 301")) (lit "gpt-4o-mini") []).2)
    (Return tt) (Return tt) (fun _ => []).

Definition recording_world : world :=
  mk_world (State.mk_host (State.Content (lit "pid: 4242")) (fun _ => None))
    NotCaptured [].

End Cli.

(** ** app/recorder.py *)

Module Recorder.
Import Py.

Definition _SAMPLE_RATE : Z := 16000.
Definition _CHANNELS : Z := 1.
Definition _BLOCK_SIZE : Z := 1024.

(** One block of frames as the callback receives it: mono [int16]
    samples. *)
Definition block : Type := list Z.

(** The two bytes of an [int16] sample, low byte first. *)
Definition sample_bytes (z : Z) : list Z := [z mod 256; (z / 256) mod 256].

(** [audio_data.tobytes()] *)
Definition tobytes (samples : list Z) : list Z :=
  concat (List.map sample_bytes samples).

(** A WAV file: its header fields and its frame bytes. *)
Record wav_file : Type := mk_wav {
  nchannels : Z;
  sampwidth : Z;
  framerate : Z;
  frames : list Z
}.

(** A recorder object with its environment: what opening and starting an
    input stream on the default device raise, if anything, and the WAV
    files in the temporary directory.  The driver's callbacks are the
    calls of [_callback]; each is one atomic step, since the queue is the
    only thing the two threads share. *)
Record world : Type := mk_world {
  _sample_rate : Z;
  _queue : list block;
  _stream : bool;                  (* [self._stream is not None] *)
  _recording : bool;
  open_error : option exn;         (* [sd.InputStream(...)] *)
  start_error : option exn;        (* [self._stream.start()] *)
  wavs : gmap Transcribe.path wav_file
}.

(** [Recorder(sample_rate)] on a device and a temporary directory. *)
Definition init (sample_rate : Z) (open_error start_error : option exn)
    (wavs : gmap Transcribe.path wav_file) : world :=
  mk_world sample_rate [] false false open_error start_error wavs.

Definition start : M world unit :=
  fun w =>
    if _recording w then (w, Raise RuntimeError)
    else
      (* drain the queue from any previous run *)
      let w1 := mk_world (_sample_rate w) [] (_stream w) false
                  (open_error w) (start_error w) (wavs w) in
      match open_error w with
      | Some e => (w1, Raise e)
      | None =>
          let w2 := mk_world (_sample_rate w) [] true false
                      (open_error w) (start_error w) (wavs w) in
          match start_error w with
          | Some e => (w2, Raise e)
          | None =>
              (mk_world (_sample_rate w) [] true true
                 (open_error w) (start_error w) (wavs w),
               Return tt)
          end
      end.

(** [tempfile.mkstemp]: a file that did not exist before. *)
Definition new_wav (w : world) : Transcribe.path := fresh (dom (wavs w)).

Definition stop : M world Transcribe.path :=
  fun w =>
    if negb (_recording w) then (w, Raise RuntimeError)
    else
      let collected := _queue w in
      let w1 := mk_world (_sample_rate w) [] false false
                  (open_error w) (start_error w) (wavs w) in
      match collected with
      | [] => (w1, Raise ValueError)
      | _ =>
          let audio_data := concat collected in
          let wav_path := new_wav w in
          (mk_world (_sample_rate w) [] false false
             (open_error w) (start_error w)
             (<[wav_path := mk_wav _CHANNELS 2 (_sample_rate w)
                              (tobytes audio_data)]> (wavs w)),
           Return wav_path)
      end.

Definition is_recording : M world bool := fun w => (w, Return (_recording w)).

(** [_callback]: the block is copied and queued. *)
Definition _callback (indata : block) : M world unit :=
  fun w =>
    (mk_world (_sample_rate w) (_queue w ++ [indata]) (_stream w)
       (_recording w) (open_error w) (start_error w) (wavs w),
     Return tt).

(** The driver delivers the blocks [bs], one callback each. *)
Definition deliver (bs : list block) : M world unit :=
  for_fold bs (fun _ b => _callback b) tt.

End Recorder.

(** ** app/writer.py *)

Module Writer.
Import Py.

Definition dash : N := 45.
Definition space : N := 32.

(** The character class of the first substitution: less-than,
    greater-than, colon, double quote, slash, backslash, bar, question
    mark and star. *)
Definition unsafe (c : N) : bool :=
  ((c =? 60) || (c =? 62) || (c =? 58) || (c =? 34) || (c =? 47)
   || (c =? 92) || (c =? 124) || (c =? 63) || (c =? 42))%N.

(** The first [re.sub]: every character of that class becomes a dash. *)
Definition replace_unsafe (s : str) : str :=
  List.map (fun c => if unsafe c then dash else c) s.

(** The character class of the second substitution: white space and
    the dash. *)
Definition filler (c : N) : bool := isspace c || (c =? dash)%N.

(** The second [re.sub]: every maximal run of white space and dashes
    becomes one space; [in_run] tells that the character before belonged
    to such a run. *)
Fixpoint collapse (in_run : bool) (s : str) : str :=
  match s with
  | [] => []
  | c :: s' =>
      if filler c
      then (if in_run then collapse true s' else space :: collapse true s')
      else c :: collapse false s'
  end.

(** [s.lstrip(chars)], [s.rstrip(chars)] and [s.strip(chars)] *)
Fixpoint lstrip_chars (chars : N -> bool) (s : str) : str :=
  match s with
  | c :: s' => if chars c then lstrip_chars chars s' else s
  | [] => []
  end.

Definition rstrip_chars (chars : N -> bool) (s : str) : str :=
  rev (lstrip_chars chars (rev s)).

Definition strip_chars (chars : N -> bool) (s : str) : str :=
  lstrip_chars chars (rstrip_chars chars s).

(** The characters of [" -"]. *)
Definition space_or_dash (c : N) : bool := ((c =? space) || (c =? dash))%N.

Definition safe_filename (title : str) : str :=
  let name := replace_unsafe title in
  let name := collapse false name in
  strip_chars space_or_dash name.

(** A file in a directory: [parent / name]. *)
Definition file_path : Type := (Transcribe.path * str)%type.

(** [name.rfind(".")], counting from index [i]. *)
Fixpoint rfind_dot (i : nat) (s : str) : option nat :=
  match s with
  | [] => None
  | c :: s' =>
      match rfind_dot (S i) s' with
      | Some j => Some j
      | None => if (c =? 46)%N then Some i else None
      end
  end.

(** Where [pathlib] cuts a name into stem and suffix: at the last dot,
    unless that dot is the first or the last character (the rule of
    Python up to 3.13). *)
Definition cut (name : str) : option nat :=
  match rfind_dot 0 name with
  | Some i => if (0 <? i)%nat && (i <? length name - 1)%nat then Some i else None
  | None => None
  end.

(** [path.suffix] and [path.stem] *)
Definition suffix (name : str) : str :=
  match cut name with
  | Some i => drop i name
  | None => []
  end.

Definition stem (name : str) : str :=
  match cut name with
  | Some i => take i name
  | None => name
  end.

(** [parent / f"{stem}_{counter}{suffix}"] *)
Definition candidate (p : file_path) (counter : Z) : file_path :=
  (p.1, stem p.2 ++ lit "_" ++ fmt_d counter ++ suffix p.2).

(** The [while True] loop of [_unique_path], over the set of paths that
    exist; [None] is a run that outlives its fuel. *)
Fixpoint unique_loop (fuel : nat) (existing : gset file_path) (p : file_path)
    (counter : Z) : option file_path :=
  match fuel with
  | O => None
  | S fuel' =>
      let c := candidate p counter in
      if decide (c ∈ existing)
      then unique_loop fuel' existing p (counter + 1)
      else Some c
  end.

Definition _unique_path (fuel : nat) (existing : gset file_path)
    (p : file_path) : option file_path :=
  if decide (p ∈ existing) then unique_loop fuel existing p 1 else Some p.

(** [_format_tag] *)
Definition _format_tag (value style : str) : str :=
  if decide (style = lit "hashtag") then lit "#" ++ value
  else lit "[[" ++ value ++ lit "]]".

(** An ordinary character: one that neither substitution touches. *)
Definition ordinary (c : N) : bool := negb (unsafe c) && negb (filler c).

(** No two spaces in a row; [after_space] tells that a space comes just
    before the text. *)
Fixpoint single_spaced (after_space : bool) (s : str) : bool :=
  match s with
  | [] => true
  | c :: s' =>
      if (c =? space)%N then negb after_space && single_spaced true s'
      else single_spaced false s'
  end.

End Writer.

(** ** app/state.py: writing the marker *)

Module StateWrite.
Import Py State.

(** The record [write_state] builds. *)
Definition state_dict (pid : Z) (course title date start_time : str)
  : gmap str pyobj :=
  {[ lit "pid" := OInt pid;
     lit "course" := OStr course;
     lit "title" := OStr title;
     lit "date" := OStr date;
     lit "start_time" := OStr start_time ]}.

Section Yaml.

(** [yaml.dump] of a record, as the text written to the file. *)
Variable dump : gmap str pyobj -> str.

(** [write_state], with [now] for [datetime.now().isoformat()].  The
    state directory is not part of the host; a marker path that cannot be
    opened makes [open(STATE_FILE, "w")] raise. *)
Definition write_state (now : str) (pid : Z) (course title date : str)
  : M host unit :=
  fun w =>
    match state_file w with
    | Unreadable => (w, Raise OSError)
    | _ =>
        (mk_host (Content (dump (state_dict pid course title date now)))
           (kill0 w),
         Return tt)
    end.

End Yaml.

End StateWrite.

(** ** app/cli.py: the course of the hour *)

Module Schedule.
Import Py State.

Definition hyphen : N := 45.
Definition colon : N := 58.

(** [s.split(sep)] for a separator of one character: the pieces between
    the separators, empty ones included. *)
Fixpoint split_on (sep : N) (s : str) : list str :=
  match s with
  | [] => [[]]
  | c :: s' =>
      if (c =? sep)%N then [] :: split_on sep s'
      else
        match split_on sep s' with
        | piece :: pieces => (c :: piece) :: pieces
        | [] => [[c]]
        end
  end.

(** [datetime.now()], as far as the function looks at it: the name of
    the day, [now.strftime("%A")], and the time of day in microseconds
    since midnight. *)
Record datetime : Type := mk_datetime {
  day_name : str;
  since_midnight : Z
}.

Definition minute_us : Z := 60000000.

(** The clock reading [h:m:s] and [us] microseconds. *)
Definition clock (h m s us : Z) : Z := ((h * 60 + m) * 60 + s) * 1000000 + us.

(** What the value under a day iterates as: the items of a list (the
    characters of a text, the keys of a mapping), or nothing, for [None]
    and numbers. *)
Inductive day_value : Type :=
| Items (entries : list loaded)
| NoIter.

(** The value under [schedule]: a mapping from day names, or something
    without [get]. *)
Inductive schedule_value : Type :=
| Days (days : gmap str day_value)
| NoDays.

(** The loaded configuration, as far as the function reads it: the keys
    [schedule] and [default_course] of a mapping, each present or not, or
    something that is no mapping. *)
Inductive config : Type :=
| Mapping (schedule : option schedule_value) (default_course : option pyobj)
| NotMapping.

(** How the function ends when it does not return. *)
Inductive failure : Type :=
| NoGet          (* AttributeError: [get] on something that is no mapping *)
| NotIterable    (* TypeError: the [for] loop over [None] or a number *)
| BadTime.       (* [now.replace] refuses the hour or the minute:
                    ValueError, OverflowError beyond a C int *)

Inductive outcome : Type :=
| Found (course title_prefix : pyobj)
| Raised (f : failure).

Section Int.

(** The builtin [int] on a text; [None] when it raises ValueError. *)
Variable int : str -> option Z.

(** [h, m = map(int, s.strip().split(":"))]; [None] when this raises
    ValueError. *)
Definition hour_minute (s : str) : option (Z * Z) :=
  match split_on colon (strip s) with
  | [h; m] =>
      match int h with
      | Some h' =>
          match int m with
          | Some m' => Some (h', m')
          | None => None
          end
      | None => None
      end
  | _ => None
  end.

(** The [try] block on [entry.get("time", "")]: the four numbers, or
    [None] when ValueError or AttributeError is raised (a value that is no
    text has no [split]; [OOther] is a float, a list, a mapping or a
    date). *)
Definition parse_range (time_range : pyobj) : option (Z * Z * Z * Z) :=
  match time_range with
  | OStr s =>
      match split_on hyphen s with
      | [start_str; end_str] =>
          match hour_minute start_str with
          | Some (start_h, start_m) =>
              match hour_minute end_str with
              | Some (end_h, end_m) => Some (start_h, start_m, end_h, end_m)
              | None => None
              end
          | None => None
          end
      | _ => None
      end
  | _ => None
  end.

(** [now.replace(hour=h, minute=m, second=0, microsecond=0)]: the time of
    day of the result, or [None] when the call raises. *)
Definition replace (h m : Z) : option Z :=
  if (0 <=? h) && (h <=? 23) && (0 <=? m) && (m <=? 59)
  then Some (clock h m 0 0)
  else None.

Definition buffer_minutes : Z := 15.

(** The loop over the entries of the day. *)
Fixpoint scan (now : datetime) (default_course : pyobj)
    (day_schedule : list loaded) : outcome :=
  match day_schedule with
  | [] => Found default_course (OStr (lit "Lecture"))
  | LObj _ :: _ => Raised NoGet
  | LDict entry :: rest =>
      match parse_range (default (OStr []) (entry !! lit "time")) with
      | None => scan now default_course rest
      | Some (start_h, start_m, end_h, end_m) =>
          match replace start_h start_m with
          | None => Raised BadTime
          | Some start_dt =>
              match replace end_h end_m with
              | None => Raised BadTime
              | Some end_dt =>
                  let window_start := start_dt - buffer_minutes * minute_us in
                  let window_end := end_dt + buffer_minutes * minute_us in
                  if (window_start <=? since_midnight now)
                     && (since_midnight now <=? window_end)
                  then Found (default default_course (entry !! lit "course"))
                         (default (OStr (lit "Lecture"))
                            (entry !! lit "title_prefix"))
                  else scan now default_course rest
              end
          end
      end
  end.

(** The time of an entry, read as hours and minutes of a day. *)
Definition time_of (entry : gmap str pyobj) : option (Z * Z * Z * Z) :=
  parse_range (default (OStr []) (entry !! lit "time")).

Definition on_the_clock (h m : Z) : Prop := 0 <= h <= 23 /\ 0 <= m <= 59.

(** An entry the loop leaves behind at [now]: a mapping whose time is
    not read, or is read as two times of the day with [now] more than a
    quarter of an hour before the first or after the second. *)
Definition passed_over (now : datetime) (e : loaded) : Prop :=
  match e with
  | LObj _ => False
  | LDict entry =>
      match time_of entry with
      | None => True
      | Some (start_h, start_m, end_h, end_m) =>
          on_the_clock start_h start_m /\ on_the_clock end_h end_m /\
          (since_midnight now < clock start_h (start_m - 15) 0 0 \/
           clock end_h (end_m + 15) 0 0 < since_midnight now)
      end
  end.

Definition _infer_course (cfg : config) (now : datetime) : outcome :=
  match cfg with
  | NotMapping => Raised NoGet
  | Mapping schedule default_course =>
      match default (Days ∅) schedule with
      | NoDays => Raised NoGet
      | Days days =>
          match default (Items []) (days !! day_name now) with
          | NoIter => Raised NotIterable
          | Items entries =>
              scan now (default (OStr (lit "Lecture")) default_course) entries
          end
      end
  end.

End Int.

(** Sample inputs: a reader of plain decimal numbers, a week with two
    lectures on Monday behind an entry without time, and one with a
    lecture at hour 24. *)
Fixpoint digits_value (acc : Z) (s : str) : option Z :=
  match s with
  | [] => Some acc
  | c :: s' =>
      if (48 <=? c)%N && (c <=? 57)%N
      then digits_value (acc * 10 + (Z.of_N c - 48)) s'
      else None
  end.

Definition decimal (s : str) : option Z :=
  match s with
  | [] => None
  | _ => digits_value 0 s
  end.

Definition lecture (time course : string) : loaded :=
  LDict {[ lit "time" := OStr (lit time); lit "course" := OStr (lit course) ]}.

Definition monday : list loaded :=
  [ LDict {[ lit "course" := OStr (lit "Office hours") ]};
    lecture "10:00 - 11:15" "CS 301";
    lecture "11:30-12:45" "MATH 240" ].

Definition week : config :=
  Mapping (Some (Days {[ lit "Monday" := Items monday ]})) None.

Definition late_week : config :=
  Mapping
    (Some (Days {[ lit "Monday" :=
                     Items [lecture "noon" "CS 301";
                            lecture "23:00-24:00" "CS 302"] ]}))
    (Some (OStr (lit "Seminar"))).

End Schedule.

(** ** Further sample inputs *)

Module MoreInputs.
Import Py.

(** A summarization backend that answers its first call and is down from
    then on. *)
Definition flaky (h : list Summarize.request) (q : Summarize.request)
  : api_outcome :=
  match h with
  | [] => Responded (lit " partial notes ")
  | _ => Failed OpenAIError
  end.

(** A one-megabyte recording, a disk that holds it, and a transcription
    backend that answers every call with the same text. *)
Definition memo : Transcribe.audio_file :=
  Transcribe.mk_audio [lit "memo.mp3"] 1048576 60000 (lit ".mp3").

Definition memo_disk : Transcribe.disk :=
  Transcribe.mk_disk {[ [lit "memo.mp3"] := Transcribe.Audio ]} ∅ [].

Definition whisper_says (h : list Transcribe.path) (p : Transcribe.path)
  : api_outcome :=
  Responded (lit "sets and relations").

(** Runs of the background unit: one whose microphone cannot be opened,
    one whose vault cannot be written, one where everything works and an
    archive directory is configured. *)
Definition no_microphone : Cli.run :=
  Cli.mk_run (Raise OSError) (Return tt)
    (Return (Cli.mk_config (lit "gpt-4o-mini") None))
    (Return (lit "sets and relations")) (fun _ => Return (lit "# Sets"))
    (Return tt) (Return tt) (fun _ => lit "no input device").

Definition vault_error : Cli.run :=
  Cli.mk_run (Return tt) (Return tt)
    (Return (Cli.mk_config (lit "gpt-4o-mini") None))
    (Return (lit "sets and relations")) (fun _ => Return (lit "# Sets"))
    (Raise OSError) (Return tt) (fun _ => []).

Definition good_run : Cli.run :=
  Cli.mk_run (Return tt) (Return tt)
    (Return (Cli.mk_config (lit "gpt-4o-mini") (Some (lit "~/lectures"))))
    (Return (lit "sets and relations")) (fun _ => Return (lit "# Sets"))
    (Return tt) (Return tt) (fun _ => []).

(** Loaders for marker files: one that reads every text as a plain
    scalar, one that reads every text as a record whose process id is a
    text, one that reads every text as a record without process id. *)
Definition scalar_load (s : str) : option State.loaded :=
  Some (State.LObj (State.OStr s)).

Definition text_pid_load (s : str) : option State.loaded :=
  Some (State.LDict {[ lit "pid" := State.OStr s ]}).

Definition no_pid_load (s : str) : option State.loaded :=
  Some (State.LDict {[ lit "course" := State.OStr s ]}).

(** A host whose marker holds some text and where every process is
    alive. *)
Definition some_marker : State.host :=
  State.mk_host (State.Content (lit "CS 301")) (fun _ => None).

(** A dump and a loader that agree on the record of one recording. *)
Definition one_record : gmap str State.pyobj :=
  StateWrite.state_dict 4242 (lit "CS 301") (lit "Sets") (lit "2024-03-04")
    (lit "2024-03-04T09:00:00").

Definition one_dump (d : gmap str State.pyobj) : str := lit "pid: 4242".

Definition one_load (s : str) : option State.loaded :=
  Some (State.LDict one_record).

(** A host without marker where no process exists. *)
Definition idle_host : State.host :=
  State.mk_host State.Missing (fun _ => Some ProcessLookupError).

End MoreInputs.

(** * Properties *)

(** ** Running a computation *)

Lemma bind_run {W A B} (m : M W A) (k : A -> M W B) (w w' : W) (a : A) :
  m w = (w', Return a) -> bind m k w = k a w'.
Proof. intros H. unfold bind. now rewrite H. Qed.

Lemma bind_raise {W A B} (m : M W A) (k : A -> M W B) (w w' : W) (e : exn) :
  m w = (w', Raise e) -> bind m k w = (w', Raise e).
Proof. intros H. unfold bind. now rewrite H. Qed.

(** ** Words: [split] and [join] *)

Module PyFacts.
Import Py.

Lemma split_go_nonspace (w cur rest : str) :
  forallb (fun c => negb (isspace c)) w = true ->
  split_go cur (w ++ rest) = split_go (cur ++ w) rest.
Proof.
  revert cur. induction w as [|c w IH]; intros cur Hw; simpl.
  - now rewrite app_nil_r.
  - simpl in Hw. apply andb_prop in Hw as [Hc Hw].
    apply negb_true_iff in Hc. rewrite Hc.
    rewrite IH by assumption. now rewrite <- app_assoc.
Qed.

Lemma split_word_then_space (w rest : str) :
  is_word w ->
  split (w ++ lit " " ++ rest) = w :: split rest.
Proof.
  intros [Hne Hw]. unfold split.
  rewrite split_go_nonspace by assumption. simpl.
  destruct w; [contradiction | reflexivity].
Qed.

Lemma split_word_alone (w : str) : is_word w -> split w = [w].
Proof.
  intros [Hne Hw]. unfold split.
  rewrite <- (app_nil_r w) at 1.
  rewrite split_go_nonspace by assumption. simpl.
  destruct w; [contradiction | reflexivity].
Qed.

(** Splitting the single-space join of words gives the words back. *)
Lemma split_join (ws : list str) :
  Forall is_word ws -> split (join (lit " ") ws) = ws.
Proof.
  induction 1 as [|w ws Hw Hws IH]; [reflexivity |].
  destruct ws as [|w' ws].
  - simpl. now apply split_word_alone.
  - change (join (lit " ") (w :: w' :: ws))
      with (w ++ lit " " ++ join (lit " ") (w' :: ws)).
    rewrite split_word_then_space by assumption. now rewrite IH.
Qed.

Lemma split_go_words (s cur : str) :
  forallb (fun c => negb (isspace c)) cur = true ->
  Forall is_word (split_go cur s).
Proof.
  revert cur. induction s as [|c s IH]; intros cur Hcur; simpl.
  - destruct cur; constructor; [| constructor]. split; [discriminate | assumption].
  - destruct (isspace c) eqn:Hc.
    + destruct cur as [|d cur]; [now apply IH |].
      constructor; [split; [discriminate | assumption] | now apply IH].
    + apply IH. rewrite forallb_app, Hcur. simpl. now rewrite Hc.
Qed.

(** Every element of [s.split()] is a word. *)
Lemma split_words (s : str) : Forall is_word (split s).
Proof. now apply split_go_words. Qed.

Lemma len_nonneg {A} (l : list A) : 0 <= len l.
Proof. unfold len. lia. Qed.

(** A slice with bounds in range, as [take] and [drop]. *)
Lemma slice_in_range {A} (l : list A) (lo hi : Z) :
  0 <= lo -> 0 <= hi ->
  slice l lo hi =
  take (Z.to_nat (Z.min hi (len l)) - Z.to_nat lo) (drop (Z.to_nat lo) l).
Proof.
  intros Hlo Hhi. unfold slice, clamp.
  destruct (Z.ltb_spec lo 0); [lia |].
  destruct (Z.ltb_spec hi 0); [lia |].
  destruct (Z.le_gt_cases lo (len l)) as [Hl | Hl].
  - rewrite (Z.min_l lo) by lia. f_equal. lia.
  - rewrite (Z.min_r lo) by lia.
    rewrite !drop_ge by (unfold len in *; lia).
    now rewrite !take_nil.
Qed.

Lemma slice_words (ws : list str) (lo hi : Z) :
  Forall is_word ws -> Forall is_word (slice ws lo hi).
Proof.
  intros H. unfold slice. now apply Forall_take, Forall_drop.
Qed.

End PyFacts.

(** ** The transcript chunker *)

Module ChunkFacts.
Import Py PyFacts Summarize.

Lemma windows_S {A} (emit : Z -> Z -> A) (start : Z) (k : nat) :
  windows emit start (S k) =
  emit start (start + _CHUNK_WORDS) :: windows emit (start + stride) k.
Proof.
  unfold windows. simpl seq. rewrite <- seq_shift. simpl.
  rewrite List.map_map. f_equal.
  - f_equal; unfold stride, _CHUNK_WORDS, _OVERLAP_WORDS; lia.
  - apply List.map_ext. intros i. unfold window. simpl.
    f_equal; unfold stride, _CHUNK_WORDS, _OVERLAP_WORDS; lia.
Qed.

(** A run that needs [S k] iterations from [start], given more fuel than
    that, appends exactly the [S k] windows from [start]. *)
Lemma chunk_loop_steps {A} (emit : Z -> Z -> A) (k : nat) :
  forall (fuel : nat) (n start : Z) (acc : list A),
    (k < fuel)%nat ->
    start < n ->
    n <= start + _CHUNK_WORDS + stride * Z.of_nat k ->
    (k = O \/ start + _CHUNK_WORDS + stride * (Z.of_nat k - 1) < n) ->
    chunk_loop emit fuel n start acc = Some (acc ++ windows emit start (S k)).
Proof.
  unfold stride, _CHUNK_WORDS, _OVERLAP_WORDS.
  induction k as [|k IH]; intros fuel n start acc Hfuel Hlt Hup Hlow;
    (destruct fuel as [|fuel]; [lia |]); simpl;
    unfold _CHUNK_WORDS, _OVERLAP_WORDS.
  - destruct (Z.ltb_spec start n); [| lia].
    destruct (Z.geb_spec (start + 8000) n); [| lia].
    do 2 f_equal. unfold windows, window. simpl.
    unfold stride, _CHUNK_WORDS, _OVERLAP_WORDS.
    repeat f_equal; lia.
  - destruct (Z.ltb_spec start n); [| lia].
    destruct Hlow as [Hk | Hlow]; [discriminate |].
    destruct (Z.geb_spec (start + 8000) n); [lia |].
    rewrite IH by lia.
    rewrite windows_S with (k := S k). rewrite <- app_assoc. simpl.
    unfold stride, _CHUNK_WORDS, _OVERLAP_WORDS.
    do 3 f_equal. f_equal. lia.
Qed.

Lemma iterations_spec (n : Z) :
  0 < n ->
  exists k : nat,
    iterations n = S k /\
    n <= _CHUNK_WORDS + stride * Z.of_nat k /\
    (k = O \/ _CHUNK_WORDS + stride * (Z.of_nat k - 1) < n).
Proof.
  intros Hn. unfold iterations, stride, _CHUNK_WORDS, _OVERLAP_WORDS.
  destruct (Z.leb_spec n 0); [lia |].
  eexists; split; [reflexivity |].
  set (q := (Z.max n 8000 - 8000 + (8000 - 500 - 1)) / (8000 - 500)).
  assert (Hq : 0 <= q /\ (8000 - 500) * q <= Z.max n 8000 - 8000 + 7499
               /\ Z.max n 8000 - 8000 + 7499 < (8000 - 500) * q + 7500).
  { subst q. pose proof (Z.div_mod (Z.max n 8000 - 8000 + (8000 - 500 - 1)) (8000 - 500)).
    pose proof (Z.mod_pos_bound (Z.max n 8000 - 8000 + (8000 - 500 - 1)) (8000 - 500)).
    assert (0 <= (Z.max n 8000 - 8000 + (8000 - 500 - 1)) / (8000 - 500))
      by (apply Z.div_pos; lia).
    lia. }
  rewrite Z2Nat.id by lia.
  split; [lia |].
  destruct (Z.eq_dec q 0) as [-> | Hq0]; [now left | right; lia].
Qed.

(** With more fuel than [iterations n], the loop returns the windows in
    order. *)
Lemma chunk_loop_runs {A} (emit : Z -> Z -> A) (fuel : nat) (n : Z) :
  0 <= n ->
  (iterations n < fuel)%nat ->
  chunk_loop emit fuel n 0 [] = Some (windows emit 0 (iterations n)).
Proof.
  intros Hn Hfuel.
  destruct (Z.eq_dec n 0) as [-> | Hn0].
  - destruct fuel; [simpl in Hfuel; lia | reflexivity].
  - destruct (iterations_spec n) as (k & Hk & Hup & Hlow); [lia |].
    rewrite Hk in *.
    now rewrite (chunk_loop_steps emit k) by (try lia; assumption).
Qed.

(** The loop needs at most one iteration per word. *)
Lemma iterations_le (n : Z) : 0 <= n -> (iterations n <= Z.to_nat n)%nat.
Proof.
  intros Hn. destruct (Z.eq_dec n 0) as [-> | Hn0]; [reflexivity |].
  destruct (iterations_spec n) as (k & Hk & Hup & Hlow); [lia |].
  rewrite Hk. revert Hup Hlow.
  unfold stride, _CHUNK_WORDS, _OVERLAP_WORDS.
  intros Hup [-> | Hlow]; lia.
Qed.

Lemma iterations_fuel (words : list str) :
  (iterations (len words) < S (length words))%nat.
Proof.
  pose proof (iterations_le (len words) (len_nonneg words)) as H.
  unfold len in *. rewrite Nat2Z.id in H. lia.
Qed.

(** The chunk plan in closed form. *)
Lemma chunk_plan_windows (words : list str) :
  chunk_plan words = windows (chunk_span words) 0 (iterations (len words)).
Proof.
  unfold chunk_plan.
  now rewrite chunk_loop_runs by (apply len_nonneg || apply iterations_fuel).
Qed.

Lemma _chunk_transcript_windows (transcript : str) :
  _chunk_transcript transcript =
  windows (chunk_text (split transcript)) 0 (iterations (len (split transcript))).
Proof.
  unfold _chunk_transcript, _chunk_transcript_fuel.
  now rewrite chunk_loop_runs by (apply len_nonneg || apply iterations_fuel).
Qed.

(** The chunks are the joined slices of the plan's word ranges. *)
Lemma _chunk_transcript_plan (transcript : str) :
  _chunk_transcript transcript =
  List.map (fun '(s, e) => join (lit " ") (slice (split transcript) s e))
    (chunk_plan (split transcript)).
Proof.
  rewrite _chunk_transcript_windows, chunk_plan_windows.
  unfold windows. rewrite List.map_map. apply List.map_ext. intros i.
  unfold chunk_span, chunk_text, window. simpl. f_equal.
  assert (0 <= 0 + stride * Z.of_nat i)
    by (unfold stride, _CHUNK_WORDS, _OVERLAP_WORDS; lia).
  rewrite !slice_in_range;
    unfold stride, _CHUNK_WORDS, _OVERLAP_WORDS in *; try lia.
  - f_equal. f_equal. f_equal. lia.
  - pose proof (len_nonneg (split transcript)). lia.
Qed.

Lemma windows_lookup {A} (emit : Z -> Z -> A) (start : Z) (k i : nat) :
  windows emit start k !! i =
  if decide (i < k)%nat
  then Some (emit (window start i).1 (window start i).2) else None.
Proof.
  unfold windows. change (@List.map) with (@fmap list _).
  rewrite list_lookup_fmap.
  destruct (decide (i < k)%nat) as [Hi | Hi].
  - now rewrite lookup_seq_lt.
  - now rewrite lookup_seq_ge by lia.
Qed.

Lemma windows_length {A} (emit : Z -> Z -> A) (start : Z) (k : nat) :
  length (windows emit start k) = k.
Proof. unfold windows. now rewrite length_map, length_seq. Qed.

(** Every window but the last of the run ends before the last word. *)
Lemma window_inner (n : Z) (i : nat) :
  0 < n -> (S i < iterations n)%nat ->
  stride * Z.of_nat i + _CHUNK_WORDS < n.
Proof.
  intros Hn Hi. destruct (iterations_spec n Hn) as (k & Hk & Hup & Hlow).
  rewrite Hk in Hi. revert Hup Hlow.
  unfold stride, _CHUNK_WORDS, _OVERLAP_WORDS.
  intros Hup [-> | Hlow]; lia.
Qed.

(** The last window reaches the last word and starts before it; when it
    is not the first window it starts more than the overlap before it. *)
Lemma window_last (n : Z) (i : nat) :
  0 < n -> iterations n = S i ->
  n <= stride * Z.of_nat i + _CHUNK_WORDS /\
  stride * Z.of_nat i < n /\
  (i <> O -> stride * Z.of_nat i + _OVERLAP_WORDS < n).
Proof.
  intros Hn Hi. destruct (iterations_spec n Hn) as (k & Hk & Hup & Hlow).
  rewrite Hk in Hi. injection Hi as ->. revert Hup Hlow.
  unfold stride, _CHUNK_WORDS, _OVERLAP_WORDS.
  intros Hup [-> | Hlow]; lia.
Qed.

Lemma iterations_pos (n : Z) : (0 < iterations n)%nat -> 0 < n.
Proof.
  unfold iterations. destruct (Z.leb_spec n 0); lia.
Qed.

(** Every window of the run starts before the last word. *)
Lemma window_starts_inside (n : Z) (i : nat) :
  (i < iterations n)%nat -> stride * Z.of_nat i < n.
Proof.
  intros Hi. assert (Hn : 0 < n) by (apply iterations_pos; lia).
  destruct (decide (S i < iterations n)%nat) as [Hnext | Hlast].
  - pose proof (window_inner n i Hn Hnext). unfold _CHUNK_WORDS in *. lia.
  - now destruct (window_last n i Hn ltac:(lia)) as (_ & Hstart & _).
Qed.

(** The [i]-th range of the plan. *)
Lemma plan_entry (words : list str) (i : nat) (s e : Z) :
  chunk_plan words !! i = Some (s, e) ->
  (i < iterations (len words))%nat /\
  s = stride * Z.of_nat i /\
  e = Z.min (stride * Z.of_nat i + _CHUNK_WORDS) (len words).
Proof.
  rewrite chunk_plan_windows, windows_lookup.
  destruct (decide (i < iterations (len words))%nat) as [Hlt | Hge];
    [| discriminate].
  unfold chunk_span, window. simpl. intros [= <- <-]. auto.
Qed.

Lemma plan_entry_next (words : list str) (i : nat) :
  chunk_plan words !! i = None <-> (iterations (len words) <= i)%nat.
Proof.
  rewrite chunk_plan_windows, windows_lookup.
  destruct (decide (i < iterations (len words))%nat); split;
    (discriminate || lia || reflexivity).
Qed.

End ChunkFacts.

(** ** Claims on the transcript chunker *)

Module ChunkClaims.
Import Py PyFacts Summarize ChunkFacts.

Lemma slice_take_drop {A} (l : list A) (lo hi : Z) :
  0 <= lo <= hi ->
  slice l lo hi = take (Z.to_nat (hi - lo)) (drop (Z.to_nat lo) l).
Proof.
  intros [Hlo Hhi]. rewrite slice_in_range by lia.
  destruct (Z.le_gt_cases hi (len l)) as [Hh | Hh].
  - f_equal. lia.
  - rewrite !take_ge; [reflexivity | |];
      rewrite length_drop; unfold len in *; lia.
Qed.

Lemma slice_length {A} (l : list A) (lo hi : Z) :
  0 <= lo <= hi -> hi <= len l ->
  len (slice l lo hi) = hi - lo.
Proof.
  intros Hlo Hhi. rewrite slice_take_drop by lia.
  unfold len in *. rewrite length_take, length_drop. lia.
Qed.

Lemma join_nonempty (sep : str) (ws : list str) :
  ws <> [] -> Forall is_word ws -> join sep ws <> [].
Proof.
  intros Hne Hws. destruct Hws as [|w ws [Hw _] _]; [contradiction |].
  destruct w; [contradiction |]. destruct ws; discriminate.
Qed.

(** The words of a chunk are the words of its range. *)
Lemma split_chunk_text (transcript : str) (s e : Z) :
  split (chunk_text (split transcript) s e) = slice (split transcript) s e.
Proof.
  unfold chunk_text. apply split_join, slice_words, split_words.
Qed.

(** A range of the plan starts at its index times the stride, is not
    empty and ends inside the transcript. *)
Lemma plan_entry_range (words : list str) (i : nat) (s e : Z) :
  chunk_plan words !! i = Some (s, e) ->
  s = (_CHUNK_WORDS - _OVERLAP_WORDS) * Z.of_nat i /\ s < e /\ e <= len words.
Proof.
  intros Hi. destruct (plan_entry _ _ _ _ Hi) as (Hlt & -> & ->).
  pose proof (window_starts_inside _ _ Hlt) as Hstart.
  revert Hstart. unfold stride, _CHUNK_WORDS, _OVERLAP_WORDS. lia.
Qed.

(** C4. For every transcript, the chunk with index [i] is the single-space
    join of the words of the [i]-th range [(s, e)] of the chunk plan; the
    range is non-empty, lies inside the transcript and is at most
    [_CHUNK_WORDS] wide.  When a next chunk exists, chunk [i] is exactly
    [_CHUNK_WORDS] wide and the next chunk starts at [e - _OVERLAP_WORDS],
    further on in the transcript; when none exists, chunk [i] ends at the
    transcript's word count. *)
Theorem chunk_plan_chain (transcript : str) (i : nat) (s e : Z) :
  chunk_plan (split transcript) !! i = Some (s, e) ->
  _chunk_transcript transcript !! i
    = Some (join (lit " ") (slice (split transcript) s e)) /\
  0 <= s < e /\ e <= len (split transcript) /\ e - s <= _CHUNK_WORDS /\
  match chunk_plan (split transcript) !! S i with
  | Some (s', e') =>
      e = s + _CHUNK_WORDS /\ s' = e - _OVERLAP_WORDS /\ s < s'
  | None => e = len (split transcript)
  end.
Proof.
  intros Hi. split.
  { rewrite _chunk_transcript_plan. change (@List.map) with (@fmap list _).
    now rewrite list_lookup_fmap, Hi. }
  destruct (plan_entry _ _ _ _ Hi) as (Hlt & -> & ->).
  set (n := len (split transcript)) in *.
  assert (Hn : 0 < n) by (apply iterations_pos; lia).
  pose proof (window_starts_inside n i Hlt) as Hstart.
  destruct (chunk_plan (split transcript) !! S i) as [[s' e']|] eqn:Hnext.
  - destruct (plan_entry _ _ _ _ Hnext) as (Hlt' & -> & _). fold n in Hlt'.
    pose proof (window_inner n i Hn Hlt') as Hin.
    revert Hin Hstart. unfold stride, _CHUNK_WORDS, _OVERLAP_WORDS. lia.
  - apply plan_entry_next in Hnext. fold n in Hnext.
    destruct (window_last n i Hn) as (Hend & _); [lia |].
    revert Hend Hstart. unfold stride, _CHUNK_WORDS, _OVERLAP_WORDS. lia.
Qed.

(** C9. The chunking loop terminates on every transcript: any fuel above
    the iteration count, which is at most one iteration per word, makes the
    loop return the chunks.  The [i]-th iteration starts at word
    [7500 * i], every chunk is a non-empty text over a non-empty word
    range, and a transcript with at least one word gives at least one
    chunk. *)
Theorem chunk_loop_terminates (transcript : str) :
  (iterations (len (split transcript)) <= length (split transcript))%nat /\
  (forall fuel : nat,
     (iterations (len (split transcript)) < fuel)%nat ->
     _chunk_transcript_fuel fuel transcript
       = Some (_chunk_transcript transcript)) /\
  length (_chunk_transcript transcript) = iterations (len (split transcript)) /\
  (forall (i : nat) (s e : Z),
     chunk_plan (split transcript) !! i = Some (s, e) ->
     s = (_CHUNK_WORDS - _OVERLAP_WORDS) * Z.of_nat i /\ s < e) /\
  Forall (fun c => c <> []) (_chunk_transcript transcript) /\
  (split transcript <> [] -> _chunk_transcript transcript <> []).
Proof.
  set (words := split transcript).
  pose proof (iterations_fuel words) as Hfuel.
  repeat apply conj.
  - lia.
  - intros fuel Hf. rewrite _chunk_transcript_windows.
    unfold _chunk_transcript_fuel. apply chunk_loop_runs; [apply len_nonneg | exact Hf].
  - rewrite _chunk_transcript_windows. apply windows_length.
  - intros i s e Hi. now apply plan_entry_range in Hi.
  - rewrite _chunk_transcript_plan. apply Forall_lookup_2. intros i c.
    change (@List.map) with (@fmap list _). rewrite list_lookup_fmap.
    destruct (chunk_plan (split transcript) !! i) as [[s e]|] eqn:Hi; [| discriminate].
    simpl. intros [= <-].
    destruct (plan_entry_range _ _ _ _ Hi) as (Hs & Hse & He).
    apply join_nonempty; [| apply slice_words, split_words].
    intros Hnil. apply (f_equal len) in Hnil.
    revert Hs. unfold _CHUNK_WORDS, _OVERLAP_WORDS. intros Hs.
    rewrite slice_length in Hnil by lia. unfold len in Hnil. simpl in Hnil. lia.
  - intros Hne Hnil. apply (f_equal (@length _)) in Hnil.
    rewrite _chunk_transcript_windows, windows_length in Hnil.
    fold words in Hnil, Hne.
    destruct words as [|w ws]; [contradiction |]. discriminate.
Qed.

(** Stitching the first [S j] windows gives back the first
    [_CHUNK_WORDS + stride * j] words. *)
Lemma stitch_windows (transcript : str) (j : nat) :
  stitch (windows (chunk_text (split transcript)) 0 (S j)) =
  take (Z.to_nat (_CHUNK_WORDS + stride * Z.of_nat j)) (split transcript).
Proof.
  set (words := split transcript).
  unfold stitch, windows. simpl seq. cbn [List.map].
  unfold words at 1. rewrite split_chunk_text. fold words.
  induction j as [|j IH].
  - simpl. rewrite app_nil_r. unfold window. simpl.
    rewrite slice_take_drop by (unfold _CHUNK_WORDS; lia).
    rewrite drop_0. f_equal.
  - rewrite seq_S, !List.map_app, concat_app, app_assoc, IH. clear IH.
    cbn [List.map concat]. rewrite app_nil_r.
    unfold words at 2. rewrite split_chunk_text. fold words.
    unfold window, stride, _CHUNK_WORDS, _OVERLAP_WORDS. cbn [fst snd].
    rewrite slice_take_drop by lia.
    rewrite skipn_firstn_comm, drop_drop.
    match goal with
    | |- _ ++ take ?a (drop ?b _) = _ =>
        replace a with (Z.to_nat 7500) by lia;
        replace b with (Z.to_nat (8000 + (8000 - 500) * Z.of_nat j)) by lia
    end.
    rewrite take_take_drop. f_equal. lia.
Qed.

(** C10. For every transcript, the words of the first chunk followed by
    the words of every later chunk without its first [_OVERLAP_WORDS]
    words are exactly the words of the transcript, in order. *)
Theorem chunks_cover_transcript (transcript : str) :
  stitch (_chunk_transcript transcript) = split transcript.
Proof.
  rewrite _chunk_transcript_windows.
  set (n := len (split transcript)).
  destruct (Z.eq_dec n 0) as [Hz | Hnz].
  - rewrite Hz. simpl. subst n. unfold len in Hz.
    destruct (split transcript); [reflexivity | discriminate].
  - assert (Hn : 0 < n) by (pose proof (len_nonneg (split transcript)); lia).
    destruct (iterations_spec n Hn) as (k & Hk & _).
    rewrite Hk, stitch_windows. apply take_ge.
    destruct (window_last n k Hn Hk) as (Hend & _).
    revert Hend. unfold n, len, stride, _CHUNK_WORDS, _OVERLAP_WORDS. lia.
Qed.


Lemma chunk_plan_chain_witness :
  chunk_plan (split (sample_transcript 12000)) !! 0%nat = Some (0, 8000) /\
  _chunk_transcript (sample_transcript 12000) !! 0%nat
    = Some (join (lit " ") (slice (split (sample_transcript 12000)) 0 8000)) /\
  chunk_plan (split (sample_transcript 12000)) !! 1%nat = Some (7500, 12000).
Proof.
  assert (H0 : chunk_plan (split (sample_transcript 12000)) !! 0%nat
               = Some (0, 8000)) by (vm_compute; reflexivity).
  assert (H1 : chunk_plan (split (sample_transcript 12000)) !! 1%nat
               = Some (7500, 12000)) by (vm_compute; reflexivity).
  pose proof (chunk_plan_chain (sample_transcript 12000) 0 0 8000 H0) as H.
  split; [exact H0 | split; [exact (proj1 H) | exact H1]].
Defined.

Lemma chunk_loop_terminates_witness :
  split (sample_transcript 3) <> [] /\
  _chunk_transcript_fuel 2 (sample_transcript 3)
    = Some (_chunk_transcript (sample_transcript 3)) /\
  _chunk_transcript (sample_transcript 3) <> [].
Proof.
  assert (Hne : split (sample_transcript 3) <> [])
    by (vm_compute; discriminate).
  pose proof (chunk_loop_terminates (sample_transcript 3)) as (_ & Hrun & _ & _ & _ & Hsome).
  split; [exact Hne | split; [| exact (Hsome Hne)]].
  apply Hrun. vm_compute. lia.
Defined.

End ChunkClaims.

(** ** Claims on the summarizer's backend calls *)

Module SummarizeClaims.
Import Py PyFacts Summarize.

Section Backend.

Variable complete : list request -> request -> api_outcome.

(** One call of [_call_llm] issues exactly one request, whatever the
    backend does with it. *)
Lemma _call_llm_calls (system user model : str) (w : llm_calls) :
  (_call_llm complete system user model w).1
  = w ++ [mk_request model system user].
Proof.
  unfold _call_llm, try_except, bind, chat_completions_create.
  destruct (complete w (mk_request model system user)) as [c | e];
    [reflexivity |].
  destruct e; reflexivity.
Qed.

Lemma _call_llm_responded (system user model content : str) (w : llm_calls) :
  complete w (mk_request model system user) = Responded content ->
  _call_llm complete system user model w
  = (w ++ [mk_request model system user], Return (strip content)).
Proof.
  intros H. unfold _call_llm, try_except, bind, chat_completions_create.
  now rewrite H.
Qed.

(** A backend failure of the client library's own error classes leaves
    through [sys.exit(1)]. *)
Lemma _call_llm_exits (system user model : str) (w : llm_calls) (e : exn) :
  complete w (mk_request model system user) = Failed e ->
  e = AuthenticationError \/ e = OpenAIError ->
  _call_llm complete system user model w
  = (w ++ [mk_request model system user], Raise (SystemExit 1)).
Proof.
  intros H He. unfold _call_llm, try_except, bind, chat_completions_create.
  rewrite H. destruct He as [-> | ->]; reflexivity.
Qed.

(** The map step against a backend that answers: one request per
    element, in order, and one partial summary each. *)
Lemma map_step_responsive (model header : str) (n : Z)
    (l : list (Z * str)) :
  responsive complete ->
  forall (acc : list str) (w : llm_calls),
  exists partial : list str,
    length partial = length l /\
    for_fold l
      (fun acc '(i, chunk) =>
         bind (_call_llm complete _SYSTEM_PROMPT
                 (chunk_user_msg header n i chunk) model)
              (fun s => ret (acc ++ [s])))
      acc w
    = (w ++ List.map
              (fun '(i, chunk) =>
                 mk_request model _SYSTEM_PROMPT (chunk_user_msg header n i chunk))
              l,
       Return (acc ++ partial)).
Proof.
  intros Hresp. induction l as [|[i chunk] l IH]; intros acc w.
  - exists []. simpl. unfold ret. now rewrite !app_nil_r.
  - destruct (Hresp w (mk_request model _SYSTEM_PROMPT
                         (chunk_user_msg header n i chunk))) as [c Hc].
    destruct (IH (acc ++ [strip c])
                 (w ++ [mk_request model _SYSTEM_PROMPT
                          (chunk_user_msg header n i chunk)]))
      as (partial & Hlen & Hrun).
    exists (strip c :: partial). split; [simpl; congruence |].
    cbn [for_fold].
    erewrite bind_run.
    + rewrite Hrun. cbn [List.map]. now rewrite <- !app_assoc.
    + erewrite bind_run; [reflexivity |].
      now apply _call_llm_responded.
Qed.

(** The map step against any backend: the requests issued are the first
    [k] of the list, and the step returns, with one partial summary per
    element, only when all of them were issued. *)
Lemma map_step_any (model header : str) (n : Z) (l : list (Z * str)) :
  forall (acc : list str) (w : llm_calls),
  exists (k : nat) (r : result (list str)),
    for_fold l
      (fun acc '(i, chunk) =>
         bind (_call_llm complete _SYSTEM_PROMPT
                 (chunk_user_msg header n i chunk) model)
              (fun s => ret (acc ++ [s])))
      acc w
    = (w ++ take k
              (List.map
                 (fun '(i, chunk) =>
                    mk_request model _SYSTEM_PROMPT
                      (chunk_user_msg header n i chunk))
                 l),
       r) /\
    (forall out, r = Return out -> k = length l).
Proof.
  induction l as [|[i chunk] l IH]; intros acc w.
  - exists 0%nat, (Return acc). simpl. unfold ret. now rewrite app_nil_r.
  - cbn [for_fold].
    pose proof (_call_llm_calls _SYSTEM_PROMPT
                  (chunk_user_msg header n i chunk) model w) as Hcalls.
    destruct (_call_llm complete _SYSTEM_PROMPT
                (chunk_user_msg header n i chunk) model w) as [w1 [s0 | e]] eqn:Hcall;
      simpl in Hcalls; subst w1.
    + destruct (IH (acc ++ [s0])
                  (w ++ [mk_request model _SYSTEM_PROMPT
                           (chunk_user_msg header n i chunk)]))
        as (k & r & Hrun & Hk).
      exists (S k), r. split.
      * erewrite bind_run; [| erewrite bind_run; [reflexivity | exact Hcall]].
        rewrite Hrun. cbn [List.map take]. now rewrite <- app_assoc.
      * intros out Hout. simpl. f_equal. now apply (Hk out).
    + exists 1%nat, (Raise e). split.
      * erewrite bind_raise; [| erewrite bind_raise; [reflexivity | exact Hcall]].
        cbn [List.map take]. now rewrite take_0.
      * discriminate.
Qed.

(** C3. For every transcript of at most 10,000 words,
    [summarize_transcript] issues exactly one backend call, with the fixed
    system prompt and the whole transcript, whatever the backend does.
    For every longer transcript and a backend that answers its calls, it
    issues one call per chunk of [_chunk_transcript], in chunk order and
    with the same system prompt, then exactly one call with the merge
    prompt over the partial summaries, and nothing else; it returns.
    Against any backend the calls of a longer transcript are these same
    calls, cut short where a call fails and ends the run. *)
Theorem summarize_transcript_calls (transcript title : str)
    (course : option str) (model : str) (w : llm_calls) :
  (_word_count transcript <= 10000 ->
   (summarize_transcript complete transcript title course model w).1
   = w ++ [mk_request model _SYSTEM_PROMPT
             (context_header title course ++ sep_rule ++ transcript)]) /\
  (10000 < _word_count transcript ->
   responsive complete ->
   exists (partial : list str) (notes : str),
     length partial = length (_chunk_transcript transcript) /\
     summarize_transcript complete transcript title course model w
     = (w ++ chunk_requests model (context_header title course)
               (_chunk_transcript transcript)
          ++ [merge_request model (context_header title course) partial],
        Return notes)) /\
  (10000 < _word_count transcript ->
   exists (k : nat) (partial : list str),
     (summarize_transcript complete transcript title course model w).1
     = w ++ take k
              (chunk_requests model (context_header title course)
                 (_chunk_transcript transcript)
               ++ [merge_request model (context_header title course) partial])).
Proof.
  split; [| split].
  - intros Hshort. unfold summarize_transcript.
    destruct (Z.leb_spec (_word_count transcript) 10000); [| lia].
    apply _call_llm_calls.
  - intros Hlong Hresp. unfold summarize_transcript.
    destruct (Z.leb_spec (_word_count transcript) 10000); [lia |].
    set (header := context_header title course).
    set (chunks := _chunk_transcript transcript).
    destruct (map_step_responsive model header (len chunks)
                (enumerate1 chunks) Hresp [] w) as (partial & Hlen & Hrun).
    destruct (Hresp (w ++ chunk_requests model header chunks)
                (merge_request model header partial)) as [c Hc].
    exists partial, (strip c). split.
    { rewrite Hlen. unfold enumerate1. apply length_imap. }
    rewrite (bind_run _ _ _ _ _ Hrun). simpl app.
    unfold merge_request in Hc.
    rewrite (_call_llm_responded _ _ _ c) by exact Hc.
    unfold merge_request. now rewrite <- app_assoc.
  - intros Hlong. unfold summarize_transcript.
    destruct (Z.leb_spec (_word_count transcript) 10000); [lia |].
    set (header := context_header title course).
    set (chunks := _chunk_transcript transcript).
    destruct (map_step_any model header (len chunks) (enumerate1 chunks) [] w)
      as (k & r & Hrun & Hk).
    fold (chunk_requests model header chunks) in Hrun.
    destruct r as [partial | e].
    + exists (S (length (chunk_requests model header chunks))), partial.
      rewrite (bind_run _ _ _ _ _ Hrun), _call_llm_calls.
      rewrite (Hk partial eq_refl).
      assert (Hlen : length (chunk_requests model header chunks)
                     = length (enumerate1 chunks))
        by (unfold chunk_requests; apply length_map).
      rewrite <- Hlen, firstn_all.
      rewrite take_ge by (rewrite length_app; simpl; lia).
      unfold merge_request. now rewrite <- app_assoc.
    + exists (Nat.min k (length (chunk_requests model header chunks))), [].
      rewrite (bind_raise _ _ _ _ _ Hrun). cbn [fst]. f_equal.
      rewrite take_app_le by lia.
      now rewrite <- take_take, firstn_all.
Qed.

End Backend.

Lemma echo_responsive : responsive echo.
Proof. intros h q. eexists. reflexivity. Qed.

Lemma summarize_transcript_calls_witness :
  (summarize_transcript echo (sample_transcript 3) (lit "Sets") None (lit "gpt-4o-mini") []).1
  = [] ++ [mk_request (lit "gpt-4o-mini") _SYSTEM_PROMPT
             (context_header (lit "Sets") None ++ sep_rule ++ sample_transcript 3)] /\
  exists (partial : list str) (notes : str),
    length partial = length (_chunk_transcript (sample_transcript 10001)) /\
    summarize_transcript echo (sample_transcript 10001) (lit "Sets") None
      (lit "gpt-4o-mini") []
    = ([] ++ chunk_requests (lit "gpt-4o-mini") (context_header (lit "Sets") None)
               (_chunk_transcript (sample_transcript 10001))
          ++ [merge_request (lit "gpt-4o-mini") (context_header (lit "Sets") None) partial],
       Return notes).
Proof.
  split.
  - apply (proj1 (summarize_transcript_calls echo (sample_transcript 3)
                    (lit "Sets") None (lit "gpt-4o-mini") [])).
    apply Z.leb_le. vm_compute. reflexivity.
  - apply (proj1 (proj2 (summarize_transcript_calls echo (sample_transcript 10001)
                           (lit "Sets") None (lit "gpt-4o-mini") []))).
    + apply Z.ltb_lt. vm_compute. reflexivity.
    + exact echo_responsive.
Defined.

End SummarizeClaims.

(** ** Claims on the audio chunk plan *)

Module AudioPlanClaims.
Import Py PyFacts Transcribe.

(** One chunk is 24 MiB, in bytes. *)
Lemma quotient_num_den (size : Z) :
  (file_size_mb size / inject_Z 24 == size # 25165824)%Q.
Proof.
  unfold file_size_mb, Qdiv, Qmult, Qinv, inject_Z, Qeq. simpl. lia.
Qed.

Lemma Qfloor_quotient (size : Z) :
  Qfloor (file_size_mb size / inject_Z 24) = size / 25165824.
Proof. now rewrite quotient_num_den. Qed.

Lemma Qceiling_quotient (size : Z) :
  Qceiling (file_size_mb size / inject_Z 24) = - ((- size) / 25165824).
Proof. rewrite quotient_num_den. reflexivity. Qed.

(** For a file size, which is never negative, [int] is the floor. *)
Lemma num_chunks_div (size : Z) :
  0 <= size -> num_chunks size 24 = size / 25165824 + 1.
Proof.
  intros Hsize. unfold num_chunks, py_int.
  assert (Hle : Qle_bool 0 (file_size_mb size / inject_Z 24) = true).
  { apply Qle_bool_iff. rewrite quotient_num_den. unfold Qle. simpl. lia. }
  now rewrite Hle, Qfloor_quotient.
Qed.

Lemma num_chunks_pos (size : Z) : 0 <= size -> 1 <= num_chunks size 24.
Proof.
  intros Hsize. rewrite num_chunks_div by assumption.
  assert (0 <= size / 25165824) by (apply Z.div_pos; lia). lia.
Qed.






(** C2, as stated, fails on a file of exactly 48 MB: the plan has three
    chunks where the ceiling of 48 / 24 is two. *)
Lemma num_chunks_not_ceiling :
  Qle_bool (file_size_mb 50331648) (inject_Z 24) = false /\
  num_chunks 50331648 24 = 3 /\
  Qceiling (file_size_mb 50331648 / inject_Z 24) = 2 /\
  num_chunks 50331648 24 <> Qceiling (file_size_mb 50331648 / inject_Z 24).
Proof. repeat split; vm_compute; congruence. Qed.

(** C2, amended. For every file size, the number of chunks is
    [floor(file_size_mb / 24) + 1]: the ceiling of [file_size_mb / 24]
    when the size is not a whole multiple of 24 MB, and one more than the
    ceiling when it is. *)
Theorem num_chunks_floor_ceiling (size : Z) :
  0 <= size ->
  num_chunks size 24 = Qfloor (file_size_mb size / inject_Z 24) + 1 /\
  num_chunks size 24
  = Qceiling (file_size_mb size / inject_Z 24)
    + (if size mod 25165824 =? 0 then 1 else 0).
Proof.
  intros Hsize.
  rewrite num_chunks_div, Qfloor_quotient, Qceiling_quotient by assumption.
  split; [reflexivity |].
  pose proof (Z.div_mod size 25165824) as Hd.
  pose proof (Z.mod_pos_bound size 25165824) as Hm.
  pose proof (Z.div_mod (- size) 25165824) as Hd'.
  pose proof (Z.mod_pos_bound (- size) 25165824) as Hm'.
  destruct (Z.eqb_spec (size mod 25165824) 0); lia.
Qed.

Lemma num_chunks_floor_ceiling_witness :
  num_chunks 31457280 24 = Qfloor (file_size_mb 31457280 / inject_Z 24) + 1 /\
  num_chunks 31457280 24
  = Qceiling (file_size_mb 31457280 / inject_Z 24)
    + (if 31457280 mod 25165824 =? 0 then 1 else 0).
Proof. apply (num_chunks_floor_ceiling 31457280). lia. Defined.

End AudioPlanClaims.

(** ** Claims on the clean-up of the chunked transcription *)

Module TranscribeClaims.
Import Py PyFacts Transcribe AudioPlanClaims.

Lemma write_all_lookup_notin (l : list (path * content)) :
  forall (m : gmap path content) (q : path),
    q ∉ l.*1 -> write_all m l !! q = m !! q.
Proof.
  induction l as [|[p c] l IH]; intros m q Hq; [reflexivity |].
  simpl in *. apply not_elem_of_cons in Hq as [Hne Hq].
  rewrite IH by assumption. now apply lookup_insert_ne.
Qed.

Lemma write_all_lookup_in (l : list (path * content)) :
  forall (m : gmap path content) (q : path),
    q ∈ l.*1 \/ is_Some (m !! q) -> is_Some (write_all m l !! q).
Proof.
  induction l as [|[p c] l IH]; intros m q Hq.
  - destruct Hq as [Hq | Hq]; [| exact Hq]. now apply elem_of_nil in Hq.
  - simpl. apply IH. destruct (decide (q = p)) as [-> | Hne].
    + right. rewrite lookup_insert_eq. eauto.
    + destruct Hq as [Hq | Hq].
      * simpl in Hq. apply elem_of_cons in Hq as [Heq | Hq]; [contradiction |].
        now left.
      * right. now rewrite lookup_insert_ne.
Qed.

Lemma delete_all_lookup (ps : list path) :
  forall (m : gmap path content) (q : path),
    delete_all m ps !! q = if decide (q ∈ ps) then None else m !! q.
Proof.
  induction ps as [|p ps IH]; intros m q.
  - simpl. destruct (decide (q ∈ [])) as [H | _]; [| reflexivity].
    now apply elem_of_nil in H.
  - simpl. rewrite IH.
    destruct (decide (q ∈ ps)) as [Hin | Hnin].
    + rewrite decide_True by (now right). reflexivity.
    + destruct (decide (q = p)) as [-> | Hne].
      * rewrite decide_True by left. apply lookup_delete_eq.
      * rewrite decide_False by (intros [H | H]%elem_of_cons; contradiction).
        now apply lookup_delete_ne.
Qed.

Lemma zip_map_same {A B C} (f : A -> B) (g : A -> C) (l : list A) :
  zip (List.map f l) (List.map g l) = List.map (fun x => (f x, g x)) l.
Proof. induction l as [|x l IH]; simpl; [reflexivity | now rewrite IH]. Qed.

(** The export loop of [split_audio] over the indices [l]. *)
Lemma export_loop (tmp : path) (sfx : str) (audio_len n cd : Z) (l : list Z) :
  forall (acc : list path) (w : disk),
    for_fold l
      (fun chunk_paths i =>
         let '(start_ms, end_ms) := chunk_range audio_len n cd i in
         let chunk_path := child tmp (chunk_name i sfx) in
         bind (export chunk_path (Piece start_ms end_ms))
              (fun _ => ret (chunk_paths ++ [chunk_path])))
      acc w
    = (mk_disk
         (write_all (files w)
            (List.map
               (fun i => (child tmp (chunk_name i sfx),
                          Piece (chunk_range audio_len n cd i).1
                                (chunk_range audio_len n cd i).2))
               l))
         (dirs w) (calls w),
       Return (acc ++ List.map (fun i => child tmp (chunk_name i sfx)) l)).
Proof.
  induction l as [|i l IH]; intros acc w.
  - simpl. rewrite app_nil_r. now destruct w.
  - cbn [for_fold]. erewrite bind_run; [| reflexivity].
    rewrite IH. cbn [files dirs calls List.map].
    now rewrite <- app_assoc.
Qed.

(** What [split_audio] does to the disk, and what it returns. *)
Lemma split_audio_run (a : audio_file) (w : disk) :
  split_audio a 24 w
  = (mk_disk (write_all (files w) (exported a w))
       ({[new_dir w]} ∪ dirs w) (calls w),
     Return (chunk_paths_of a w)).
Proof.
  unfold split_audio. erewrite bind_run; [| reflexivity].
  rewrite export_loop. cbn [files dirs calls app].
  unfold exported, chunk_paths_of, audio_chunk_plan.
  rewrite List.map_map, zip_map_same. reflexivity.
Qed.

Lemma exported_paths (a : audio_file) (w : disk) :
  (exported a w).*1 = chunk_paths_of a w.
Proof.
  unfold exported, chunk_paths_of, audio_chunk_plan.
  rewrite List.map_map, zip_map_same.
  change (@List.map) with (@fmap list _).
  rewrite <- list_fmap_compose. reflexivity.
Qed.

Lemma parent_child (d : path) (name : str) : parent (child d name) = d.
Proof. apply removelast_last. Qed.

Lemma chunk_paths_parent (a : audio_file) (w : disk) (p : path) :
  p ∈ chunk_paths_of a w -> parent p = new_dir w.
Proof.
  unfold chunk_paths_of. change (@List.map) with (@fmap list _).
  intros (i & -> & _)%list_elem_of_fmap. apply parent_child.
Qed.

(** The new directory did not exist and nothing lay under it. *)
Lemma new_dir_fresh (w : disk) :
  (new_dir w ∉ dirs w) /\
  (new_dir w ∉ (set_map parent (dom (files w)) : gset path)).
Proof.
  pose proof (is_fresh (dirs w ∪ set_map parent (dom (files w)))) as H.
  fold (new_dir w) in H. now apply not_elem_of_union in H.
Qed.

Lemma chunk_paths_new (a : audio_file) (w : disk) (p : path) :
  p ∈ chunk_paths_of a w -> files w !! p = None.
Proof.
  intros Hp. apply not_elem_of_dom. intros Hdom.
  destruct (new_dir_fresh w) as [_ Hfresh]. apply Hfresh.
  rewrite <- (chunk_paths_parent a w p Hp).
  apply elem_of_map. eauto.
Qed.

(** Unlinking every chunk file restores the files there were. *)
Lemma delete_exported (a : audio_file) (w : disk) :
  delete_all (write_all (files w) (exported a w)) (chunk_paths_of a w)
  = files w.
Proof.
  apply map_eq. intros q. rewrite delete_all_lookup.
  destruct (decide (q ∈ chunk_paths_of a w)) as [Hin | Hnin].
  - symmetry. now apply (chunk_paths_new a).
  - apply write_all_lookup_notin. now rewrite exported_paths.
Qed.

Lemma unlink_loop (ps : list path) :
  forall w : disk,
    for_fold ps (fun _ p => unlink p) tt w
    = (mk_disk (delete_all (files w) ps) (dirs w) (calls w), Return tt).
Proof.
  induction ps as [|p ps IH]; intros w; [now destruct w |].
  cbn [for_fold]. erewrite bind_run; [| reflexivity].
  now rewrite IH.
Qed.

Lemma remove_added (d : path) (D : gset path) :
  d ∉ D -> ({[d]} ∪ D) ∖ {[d]} = D.
Proof.
  intros Hd. apply set_eq. intros x.
  rewrite elem_of_difference, elem_of_union, !elem_of_singleton. split.
  - intros [[Hx | Hx] Hne]; [contradiction | assumption].
  - intros Hx. split; [now right | intros ->; contradiction].
Qed.

Lemma oversized_size (size : Z) :
  Qle_bool (file_size_mb size) (inject_Z 24) = false -> 25165824 < size.
Proof.
  intros H. destruct (Z.le_gt_cases size 25165824) as [Hle | Hgt]; [| lia].
  assert (Ht : Qle_bool (file_size_mb size) (inject_Z 24) = true); [| congruence].
  apply Qle_bool_iff. unfold file_size_mb, Qdiv, Qmult, Qinv, inject_Z, Qle.
  simpl. lia.
Qed.

Section Backend.

Variable transcribe : list path -> path -> api_outcome.

Lemma _transcribe_single_run (p : path) (w : disk) :
  is_Some (files w !! p) ->
  _transcribe_single transcribe p w
  = (mk_disk (files w) (dirs w) (calls w ++ [p]),
     single_result (transcribe (calls w) p)).
Proof.
  intros [c Hc]. unfold _transcribe_single, try_except, transcriptions_create.
  rewrite Hc. destruct (transcribe (calls w) p) as [t | e]; [reflexivity |].
  destruct e; reflexivity.
Qed.

(** The transcription loop over chunk files that are on disk: it only
    adds backend calls, for a prefix of the files in order; it returns one
    text per file when every call is answered, and raises as soon as one
    fails. *)
Lemma transcribe_loop (ps : list path) :
  forall (acc : list str) (w : disk),
    (forall p, p ∈ ps -> is_Some (files w !! p)) ->
    exists (k : nat) (r : result (list str)),
      for_fold ps
        (fun parts chunk_path =>
           bind (_transcribe_single transcribe chunk_path)
                (fun text => ret (parts ++ [text])))
        acc w
      = (mk_disk (files w) (dirs w) (calls w ++ take k ps), r) /\
      ((forall i p, ps !! i = Some p ->
          exists t, transcribe (calls w ++ take i ps) p = Responded t) ->
       exists texts, length texts = length ps /\ r = Return (acc ++ texts)) /\
      ((exists i p e, ps !! i = Some p /\
          transcribe (calls w ++ take i ps) p = Failed e) ->
       exists e', r = Raise e').
Proof.
  induction ps as [|p ps IH]; intros acc w Hdisk.
  - exists 0%nat, (Return acc). simpl. rewrite app_nil_r.
    split; [now destruct w |]. split.
    + intros _. exists []. now rewrite app_nil_r.
    + intros (i & q & e & Hq & _). discriminate.
  - pose proof (_transcribe_single_run p w (Hdisk p ltac:(left))) as Hrun.
    cbn [for_fold].
    destruct (transcribe (calls w) p) as [t | e] eqn:Hcall.
    + destruct (IH (acc ++ [t]) (mk_disk (files w) (dirs w) (calls w ++ [p])))
        as (k & r & Hloop & Hok & Hfail).
      { intros q Hq. apply Hdisk. now right. }
      exists (S k), r. split; [| split].
      * erewrite bind_run; [| erewrite bind_run; [reflexivity | exact Hrun]].
        rewrite Hloop. cbn [files dirs calls take]. now rewrite <- app_assoc.
      * intros Hall. destruct Hok as (texts & Hlen & ->).
        { intros i q Hq. cbn [calls]. rewrite <- app_assoc.
          apply (Hall (S i) q Hq). }
        exists (t :: texts). split; [simpl; congruence |].
        now rewrite <- app_assoc.
      * intros (i & q & e & Hq & He). destruct i as [|i].
        { simpl in Hq, He. rewrite app_nil_r in He. congruence. }
        apply Hfail. exists i, q, e. split; [exact Hq |].
        cbn [calls]. now rewrite <- app_assoc.
    + exists 1%nat, (Raise (single_exn e)). split; [| split].
      * erewrite bind_raise; [reflexivity |].
        erewrite bind_raise; [reflexivity |].
        exact Hrun.
      * intros Hall. destruct (Hall 0%nat p eq_refl) as [t Ht].
        simpl in Ht. rewrite app_nil_r in Ht. congruence.
      * intros _. eauto.
Qed.

(** C8. For every oversized file, in every disk and against every
    backend: when [_transcribe_api] is over, the files and directories on
    disk are those there were before, so no chunk file and no temporary
    directory is left; the backend was called on a prefix of the chunk
    files, in order.  If the transcription of some chunk fails, the run
    raises and returns no text; if every chunk is transcribed, it returns
    the single-space join of one text per chunk. *)
Theorem _transcribe_api_cleanup (a : audio_file) (w : disk) :
  Qle_bool (file_size_mb (st_size a)) (inject_Z 24) = false ->
  files (_transcribe_api transcribe a w).1 = files w /\
  dirs (_transcribe_api transcribe a w).1 = dirs w /\
  (new_dir w ∉ dirs (_transcribe_api transcribe a w).1) /\
  (forall p, p ∈ chunk_paths_of a w ->
     files (_transcribe_api transcribe a w).1 !! p = None) /\
  (exists k : nat,
     calls (_transcribe_api transcribe a w).1
     = calls w ++ take k (chunk_paths_of a w)) /\
  ((exists i p e,
      chunk_paths_of a w !! i = Some p /\
      transcribe (calls w ++ take i (chunk_paths_of a w)) p = Failed e) ->
   exists e', (_transcribe_api transcribe a w).2 = Raise e') /\
  ((forall i p,
      chunk_paths_of a w !! i = Some p ->
      exists t, transcribe (calls w ++ take i (chunk_paths_of a w)) p
                = Responded t) ->
   exists texts,
     length texts = length (chunk_paths_of a w) /\
     (_transcribe_api transcribe a w).2 = Return (join (lit " ") texts)).
Proof.
  intros Hbig. pose proof (oversized_size _ Hbig) as Hsize.
  destruct (new_dir_fresh w) as [Hfresh_dir Hfresh_files].
  set (ps := chunk_paths_of a w).
  set (w1 := mk_disk (write_all (files w) (exported a w))
               ({[new_dir w]} ∪ dirs w) (calls w)).
  assert (Hdisk : forall p, p ∈ ps -> is_Some (files w1 !! p)).
  { intros p Hp. apply write_all_lookup_in. left. now rewrite exported_paths. }
  destruct (transcribe_loop ps [] w1 Hdisk) as (k & r & Hloop & Hok & Hfail).
  assert (Hps : exists first rest, ps = first :: rest /\ parent first = new_dir w).
  { pose proof (num_chunks_pos (st_size a) ltac:(lia)) as Hn.
    unfold ps, chunk_paths_of, range.
    replace (Z.to_nat (num_chunks (st_size a) 24))
      with (S (Z.to_nat (num_chunks (st_size a) 24 - 1))) by lia.
    simpl. eexists _, _. split; [reflexivity | apply parent_child]. }
  destruct Hps as (first & rest & Hps & Hparent).
  assert (Hrun : _transcribe_api transcribe a w
                 = (mk_disk (files w) (dirs w) (calls w ++ take k ps),
                    match r with
                    | Return parts => Return (join (lit " ") parts)
                    | Raise e => Raise e
                    end)).
  { unfold _transcribe_api. rewrite Hbig.
    erewrite bind_run; [| apply split_audio_run].
    fold ps w1. rewrite Hps, Hparent, <- Hps.
    unfold try_finally.
    assert (Hbody :
      bind (for_fold ps
              (fun parts chunk_path =>
                 bind (_transcribe_single transcribe chunk_path)
                      (fun text => ret (parts ++ [text]))) [])
           (fun parts => ret (join (lit " ") parts)) w1
      = (mk_disk (files w1) (dirs w1) (calls w1 ++ take k ps),
         match r with
         | Return parts => Return (join (lit " ") parts)
         | Raise e => Raise e
         end)).
    { unfold bind at 1. rewrite Hloop. now destruct r. }
    rewrite Hbody.
    erewrite bind_run; [| apply unlink_loop].
    unfold rmdir. cbn [files dirs calls w1].
    change (delete_all (write_all (files w) (exported a w)) ps)
      with (delete_all (write_all (files w) (exported a w)) (chunk_paths_of a w)).
    rewrite (delete_exported a w).
    rewrite decide_True
      by (split; [apply elem_of_union; left; now apply elem_of_singleton
                 | exact Hfresh_files]).
    cbn [files dirs calls].
    rewrite (remove_added _ _ Hfresh_dir).
    now destruct r. }
  rewrite Hrun. cbn [fst snd files dirs calls].
  repeat apply conj; try reflexivity.
  - exact Hfresh_dir.
  - intros p Hp. now apply (chunk_paths_new a).
  - now exists k.
  - intros Hex. destruct (Hfail Hex) as [e' ->]. eauto.
  - intros Hall. destruct (Hok Hall) as (texts & Hlen & ->). eauto.
Qed.

End Backend.

Lemma _transcribe_api_cleanup_witness :
  files (_transcribe_api whisper_down sample_audio empty_disk).1 = ∅ /\
  dirs (_transcribe_api whisper_down sample_audio empty_disk).1 = ∅ /\
  exists e', (_transcribe_api whisper_down sample_audio empty_disk).2 = Raise e'.
Proof.
  assert (Hbig : Qle_bool (file_size_mb (st_size sample_audio)) (inject_Z 24) = false)
    by (vm_compute; reflexivity).
  destruct (_transcribe_api_cleanup whisper_down sample_audio empty_disk Hbig)
    as (Hfiles & Hdirs & _ & _ & _ & Hfail & _).
  split; [exact Hfiles | split; [exact Hdirs |]].
  apply Hfail.
  exists 0%nat, (child (new_dir empty_disk) (chunk_name 0 (lit ".mp3"))), OpenAIError.
  split; [| reflexivity].
  unfold chunk_paths_of.
  change (num_chunks (st_size sample_audio) 24) with 2.
  reflexivity.
Defined.

End TranscribeClaims.

(** ** Claims on the marker file *)

Module StateClaims.
Import Py State.

Section Yaml.

Variable safe_load : str -> option loaded.

Lemma get_recording_info_unusable (w : host) :
  unusable safe_load (state_file w) ->
  get_recording_info safe_load w = (w, Return (LObj ONone)).
Proof.
  unfold unusable, get_recording_info, try_except, open_and_load.
  destruct (state_file w) as [| |s]; simpl; [reflexivity | reflexivity |].
  now intros ->.
Qed.

Lemma get_recording_info_parsed (w : host) (s : str) (v : loaded) :
  state_file w = Content s -> safe_load s = Some v ->
  get_recording_info safe_load w = (w, Return v).
Proof.
  intros Hs Hv. unfold get_recording_info, try_except, open_and_load.
  now rewrite Hs, Hv.
Qed.


(** C6, at the failing input. A marker that exists but does not parse is
    read as no recording, and [is_recording] returns [False] leaving the
    host, and so the marker file, exactly as it was. *)
Theorem corrupt_marker_stays (w : host) (s : str) :
  state_file w = Content s ->
  safe_load s = None ->
  is_recording safe_load w = (w, Return false) /\
  state_file (is_recording safe_load w).1 = Content s.
Proof.
  intros Hs Hv.
  assert (Hrun : is_recording safe_load w = (w, Return false)).
  { unfold is_recording. rewrite Hs. cbn [exists_ negb].
    rewrite (bind_run _ _ w w (LObj ONone)); [reflexivity |].
    apply get_recording_info_unusable. now rewrite Hs. }
  split; [exact Hrun |]. now rewrite Hrun.
Qed.

(** The sibling paths do clear the marker: a record without a process
    id, like a record of a dead process, is removed. *)
Lemma no_pid_marker_cleared (w : host) (s : str) (d : gmap str pyobj) :
  state_file w = Content s ->
  safe_load s = Some (LDict d) ->
  default ONone (d !! lit "pid") = ONone ->
  is_recording safe_load w = (mk_host Missing (kill0 w), Return false).
Proof.
  intros Hs Hv Hpid.
  pose proof (get_recording_info_parsed w s _ Hs Hv) as Hinfo.
  unfold is_recording. rewrite Hs. cbn [exists_ negb].
  rewrite (bind_run _ _ _ _ _ Hinfo). cbn [is_None].
  unfold get, bind at 1, ret at 1. rewrite Hpid. reflexivity.
Qed.

(** A marker that parses to something other than a record, or whose
    process id is not a number, makes [is_recording] raise. *)
Lemma not_a_record_raises (w : host) (s : str) (o : pyobj) :
  state_file w = Content s ->
  safe_load s = Some (LObj o) ->
  o <> ONone ->
  is_recording safe_load w = (w, Raise AttributeError).
Proof.
  intros Hs Hv Ho.
  pose proof (get_recording_info_parsed w s _ Hs Hv) as Hinfo.
  unfold is_recording. rewrite Hs. cbn [exists_ negb].
  rewrite (bind_run _ _ _ _ _ Hinfo).
  destruct o; try contradiction; reflexivity.
Qed.

End Yaml.


Lemma corrupt_marker_stays_witness :
  is_recording sample_load corrupt_host = (corrupt_host, Return false) /\
  state_file (is_recording sample_load corrupt_host).1 = Content (lit "{pid: ").
Proof.
  apply (corrupt_marker_stays sample_load corrupt_host (lit "{pid: ")).
  - reflexivity.
  - vm_compute. reflexivity.
Defined.

End StateClaims.

(** ** Claims on the pipeline of the background unit *)

Module CliClaims.
Import Py Cli.

(** A short transcript against a backend that fails with the client
    library's error leaves [summarize_transcript] through [sys.exit(1)]. *)
Lemma summarize_short_exits
    (complete : list Summarize.request -> Summarize.request -> api_outcome)
    (transcript title : str) (course : option str) (model : str)
    (w : Summarize.llm_calls) :
  Summarize._word_count transcript <= 10000 ->
  (forall q, complete w q = Failed OpenAIError) ->
  (Summarize.summarize_transcript complete transcript title course model w).2
  = Raise (SystemExit 1).
Proof.
  intros Hshort Hdown. unfold Summarize.summarize_transcript.
  destruct (Z.leb_spec (Summarize._word_count transcript) 10000); [| lia].
  erewrite SummarizeClaims._call_llm_exits; [reflexivity | apply Hdown | now right].
Qed.

Section Run.

Variable home : str.
Variable r : run.
Variable course : str.

(** The pipeline never touches the host; it notifies only at its very
    end, and when it fails after the recorder wrote the WAV file, the file
    is still where the recorder put it. *)
Lemma pipeline_frame (w : world) :
  marker_host (pipeline r course w).1 = marker_host w /\
  match (pipeline r course w).2 with
  | Return _ =>
      notifications (pipeline r course w).1
      = notifications w ++ [success_notice course]
  | Raise _ =>
      notifications (pipeline r course w).1 = notifications w /\
      (recorder_stop r = Return tt -> wav (pipeline r course w).1 = OnDisk)
  end.
Proof.
  unfold pipeline, bind, call, stop, _archive_wav, send_notification.
  destruct (recorder_stop r) as [[]|e1]; [| simpl; split; [| split]; congruence].
  destruct (load_config r) as [cfg|e2]; [| simpl; auto].
  destruct (transcribe_audio r) as [transcript|e3]; [| simpl; auto].
  destruct (summarize_transcript r transcript) as [summary|e4]; [| simpl; auto].
  destruct (write_notes r) as [[]|e5]; [| simpl; auto].
  destruct (archive_fs r) as [[]|e6]; [| simpl; auto].
  destruct (archive_dir cfg) as [[|c cs]|]; simpl; auto.
Qed.

(** An [Exception] out of the pipeline is handled: one failure
    notification, the marker cleared, exit status 1. *)
Lemma record_internal_handled (w w' : world) (e : exn) :
  recorder_start r = Return tt ->
  pipeline r course w = (w', Raise e) ->
  is_Exception e = true ->
  record_internal home r course w
  = (cleared (mk_world (marker_host w') (wav w')
                (notifications w' ++ [failure_notice home])),
     Raise (SystemExit 1)).
Proof.
  intros Hstart Hpipe Hexn. unfold record_internal.
  erewrite bind_run; [| unfold try_except, call; rewrite Hstart; reflexivity].
  erewrite bind_raise; [reflexivity |].
  unfold try_except. rewrite Hpipe, Hexn. reflexivity.
Qed.

(** So a handled failure after the capture sends exactly the failure
    notification, clears the marker and leaves the WAV file on disk. *)
Lemma handled_failure_keeps_audio (w : world) (e : exn) :
  recorder_start r = Return tt ->
  recorder_stop r = Return tt ->
  (pipeline r course w).2 = Raise e ->
  is_Exception e = true ->
  record_internal home r course w
  = (cleared (mk_world (marker_host w) OnDisk
                (notifications w ++ [failure_notice home])),
     Raise (SystemExit 1)).
Proof.
  intros Hstart Hstop Hpipe Hexn.
  destruct (pipeline r course w) as [w' res] eqn:Hrun. simpl in Hpipe. subst res.
  rewrite (record_internal_handled w w' e Hstart Hrun Hexn).
  pose proof (pipeline_frame w) as [Hhost Hrest]. rewrite Hrun in Hhost, Hrest.
  simpl in Hhost, Hrest. destruct Hrest as [Hnote Hwav].
  now rewrite Hhost, Hnote, (Hwav Hstop).
Qed.

(** A run whose pipeline returns ends with the marker cleared. *)
Lemma record_internal_success (w w' : world) :
  recorder_start r = Return tt ->
  pipeline r course w = (w', Return tt) ->
  record_internal home r course w = (cleared w', Return tt).
Proof.
  intros Hstart Hpipe. unfold record_internal.
  erewrite bind_run; [| unfold try_except, call; rewrite Hstart; reflexivity].
  erewrite bind_run; [reflexivity |].
  unfold try_except. now rewrite Hpipe.
Qed.

(** C7, at the failing input. When the recording was captured and the
    summarizer leaves through [sys.exit], as it does on a backend error,
    the [except Exception] handler of [record_internal] does not run: no
    notification is sent and the marker is not cleared; the WAV file stays
    on disk. *)
Theorem exit_escapes_handler (w : world) (cfg : config) (transcript : str)
    (code : Z) :
  recorder_start r = Return tt ->
  recorder_stop r = Return tt ->
  load_config r = Return cfg ->
  transcribe_audio r = Return transcript ->
  summarize_transcript r transcript = Raise (SystemExit code) ->
  record_internal home r course w
  = (mk_world (marker_host w) OnDisk (notifications w), Raise (SystemExit code)).
Proof.
  intros Hstart Hstop Hcfg Htr Hsum. unfold record_internal.
  erewrite bind_run; [| unfold try_except, call; rewrite Hstart; reflexivity].
  erewrite bind_raise; [reflexivity |].
  unfold try_except, pipeline, bind, call, stop.
  now rewrite Hstop, Hcfg, Htr, Hsum.
Qed.

End Run.

Lemma exit_escapes_handler_witness :
  record_internal (lit "/Users/ada") sample_run (lit "CS 301") recording_world
  = (mk_world (marker_host recording_world) OnDisk [], Raise (SystemExit 1)).
Proof.
  apply (exit_escapes_handler (lit "/Users/ada") sample_run (lit "CS 301")
           recording_world (mk_config (lit "gpt-4o-mini") None)
           (lit "sets and relations") 1);
    reflexivity.
Defined.

End CliClaims.

(** ** More on the transcript chunker *)

Module ChunkMore.
Import Py PyFacts Summarize ChunkFacts.

Lemma slice_as_take_drop {A} (l : list A) (lo hi : Z) :
  0 <= lo <= hi ->
  slice l lo hi = take (Z.to_nat (hi - lo)) (drop (Z.to_nat lo) l).
Proof.
  intros [Hlo Hhi]. rewrite slice_in_range by lia.
  destruct (Z.le_gt_cases hi (len l)) as [Hh | Hh].
  - f_equal. lia.
  - rewrite !take_ge; [reflexivity | |];
      rewrite length_drop; unfold len in *; lia.
Qed.

(** The words of the [i]-th chunk, for an index the loop reaches. *)
Lemma chunk_words (transcript : str) (i : nat) (c : str) :
  _chunk_transcript transcript !! i = Some c ->
  (i < iterations (len (split transcript)))%nat /\
  split c = take (Z.to_nat _CHUNK_WORDS)
              (drop (Z.to_nat (stride * Z.of_nat i)) (split transcript)).
Proof.
  rewrite _chunk_transcript_windows, windows_lookup.
  destruct (decide (i < iterations (len (split transcript)))%nat) as [Hi | Hi];
    [| discriminate].
  intros [= <-]. split; [exact Hi |].
  unfold chunk_text, window. cbn [fst snd].
  rewrite split_join by apply slice_words, split_words.
  rewrite slice_as_take_drop
    by (unfold stride, _CHUNK_WORDS, _OVERLAP_WORDS; lia).
  unfold stride, _CHUNK_WORDS, _OVERLAP_WORDS.
  replace (0 + (8000 - 500) * Z.of_nat i + 8000 - (0 + (8000 - 500) * Z.of_nat i))
    with 8000 by lia.
  now rewrite Z.add_0_l.
Qed.

(** X1. The number of chunks in closed form: none for a transcript
    without words, one for up to 8000 words, and beyond that the ceiling
    of (words - 500) / 7500. *)
Theorem chunk_count_formula (transcript : str) :
  len (_chunk_transcript transcript) =
  if _word_count transcript =? 0 then 0
  else if _word_count transcript <=? 8000 then 1
  else (_word_count transcript - 500 + 7499) / 7500.
Proof.
  unfold _word_count, len at 1.
  rewrite _chunk_transcript_windows, windows_length.
  set (n := len (split transcript)).
  assert (Hn : 0 <= n) by apply len_nonneg.
  unfold iterations, stride, _CHUNK_WORDS, _OVERLAP_WORDS.
  destruct (Z.eqb_spec n 0) as [-> | Hn0]; [reflexivity |].
  destruct (Z.leb_spec n 0); [lia |].
  destruct (Z.leb_spec n 8000) as [Hs | Hl].
  - rewrite Z.max_r by lia. reflexivity.
  - rewrite Z.max_l by lia.
    replace (n - 500 + 7499) with (n - 8000 + (8000 - 500 - 1) + 1 * 7500) by lia.
    rewrite Z.div_add by lia.
    assert (0 <= (n - 8000 + (8000 - 500 - 1)) / (8000 - 500))
      by (apply Z.div_pos; lia).
    change (8000 - 500) with 7500 in *. lia.
Qed.

(** X2. Two consecutive chunks overlap in exactly 500 words: a chunk that
    has a successor holds 8000 words, and its last 500 words are the first
    500 words of the successor. *)
Theorem adjacent_chunks_overlap (transcript : str) (i : nat) (c c' : str) :
  _chunk_transcript transcript !! i = Some c ->
  _chunk_transcript transcript !! S i = Some c' ->
  len (split c) = 8000 /\
  drop (Z.to_nat 7500) (split c) = take (Z.to_nat 500) (split c').
Proof.
  intros Hc Hc'.
  destruct (chunk_words _ _ _ Hc) as [_ ->].
  destruct (chunk_words _ _ _ Hc') as [Hnext ->].
  set (words := split transcript) in *.
  assert (Hn : 0 < len words) by (apply iterations_pos; lia).
  pose proof (window_inner (len words) i Hn Hnext) as Hin.
  revert Hin. unfold stride, _CHUNK_WORDS, _OVERLAP_WORDS, len. intros Hin.
  split.
  - rewrite length_take, length_drop. lia.
  - rewrite skipn_firstn_comm, drop_drop, take_take.
    replace (Z.to_nat 8000 - Z.to_nat 7500)%nat
      with (Z.to_nat 500 `min` Z.to_nat 8000)%nat by lia.
    replace (Z.to_nat ((8000 - 500) * Z.of_nat i) + Z.to_nat 7500)%nat
      with (Z.to_nat ((8000 - 500) * Z.of_nat (S i))) by lia.
    reflexivity.
Qed.

(** X3. A transcript of at most 8000 words is one chunk, its words joined
    by single spaces; a transcript without words gives no chunk. *)
Theorem short_transcript_chunks (transcript : str) :
  (_word_count transcript = 0 -> _chunk_transcript transcript = []) /\
  (0 < _word_count transcript <= 8000 ->
   _chunk_transcript transcript = [join (lit " ") (split transcript)]).
Proof.
  unfold _word_count. rewrite _chunk_transcript_windows.
  set (words := split transcript). split.
  - intros ->. reflexivity.
  - intros [Hpos Hle].
    assert (Hit : iterations (len words) = 1%nat).
    { unfold iterations, stride, _CHUNK_WORDS, _OVERLAP_WORDS.
      destruct (Z.leb_spec (len words) 0); [lia |].
      now rewrite Z.max_r by lia. }
    rewrite Hit. unfold windows, window, chunk_text. simpl. f_equal. f_equal.
    rewrite slice_as_take_drop by (unfold _CHUNK_WORDS; lia).
    rewrite drop_0. apply take_ge. unfold _CHUNK_WORDS, len in *. lia.
Qed.

(** X4. Every chunk holds between 1 and 8000 words, and every chunk after
    the first holds more than 500, so that dropping its overlap never
    empties it. *)
Theorem chunk_word_bounds (transcript : str) (i : nat) (c : str) :
  _chunk_transcript transcript !! i = Some c ->
  1 <= len (split c) <= 8000 /\
  (i <> 0%nat -> 500 < len (split c)).
Proof.
  intros Hc. destruct (chunk_words _ _ _ Hc) as [Hi ->].
  set (words := split transcript) in *.
  pose proof (window_starts_inside (len words) i Hi) as Hstart.
  unfold len in *. rewrite length_take, length_drop.
  revert Hstart. unfold stride, _CHUNK_WORDS, _OVERLAP_WORDS. intros Hstart.
  clearbody words. split; [lia |].
  intros Hi0. destruct i as [|j]; [contradiction |].
  assert (Hn : 0 < Z.of_nat (length words)) by (apply iterations_pos; lia).
  pose proof (window_inner _ j Hn Hi) as Hin.
  revert Hin. unfold stride, _CHUNK_WORDS, _OVERLAP_WORDS. lia.
Qed.

Lemma adjacent_chunks_overlap_witness :
  len (split (join (lit " ") (slice (split (sample_transcript 12000)) 0 8000)))
  = 8000 /\
  drop (Z.to_nat 7500)
    (split (join (lit " ") (slice (split (sample_transcript 12000)) 0 8000)))
  = take (Z.to_nat 500)
      (split (join (lit " ") (slice (split (sample_transcript 12000)) 7500 12000))).
Proof.
  apply (adjacent_chunks_overlap (sample_transcript 12000) 0);
    vm_compute; reflexivity.
Defined.

Lemma short_transcript_chunks_witness :
  _chunk_transcript (lit "  ") = [] /\
  _chunk_transcript (lit "sets  and relations")
  = [join (lit " ") (split (lit "sets  and relations"))].
Proof.
  split.
  - apply (proj1 (short_transcript_chunks (lit "  "))). reflexivity.
  - apply (proj2 (short_transcript_chunks (lit "sets  and relations"))).
    vm_compute. split; [reflexivity | discriminate].
Defined.

Lemma chunk_word_bounds_witness :
  1 <= len (split (join (lit " ") (slice (split (sample_transcript 12000)) 7500 12000)))
    <= 8000 /\
  500 < len (split (join (lit " ") (slice (split (sample_transcript 12000)) 7500 12000))).
Proof.
  assert (H : _chunk_transcript (sample_transcript 12000) !! 1%nat
              = Some (join (lit " ") (slice (split (sample_transcript 12000)) 7500 12000)))
    by (vm_compute; reflexivity).
  destruct (chunk_word_bounds _ _ _ H) as [Hb Hover].
  split; [exact Hb | apply Hover; discriminate].
Defined.

End ChunkMore.

(** ** More on the summarizer *)

Module SummarizeMore.
Import Py PyFacts Summarize.

(** [lstrip] returns a suffix that does not start with white space. *)
Lemma lstrip_head (s : str) :
  match lstrip s with
  | c :: _ => isspace c = false
  | [] => True
  end.
Proof.
  induction s as [|c s IH]; simpl; [exact I |].
  destruct (isspace c) eqn:Hc; [exact IH | exact Hc].
Qed.

Lemma lstrip_suffix (s : str) : exists pre, s = pre ++ lstrip s.
Proof.
  induction s as [|c s [pre IH]]; simpl; [now exists [] |].
  destruct (isspace c).
  - exists (c :: pre). simpl. now f_equal.
  - now exists [].
Qed.

Lemma lstrip_fixed (s : str) :
  match s with c :: _ => isspace c = false | [] => True end ->
  lstrip s = s.
Proof. destruct s as [|c s]; simpl; [reflexivity | now intros ->]. Qed.

Lemma last_app_nonempty {A} (pre s : list A) :
  s <> [] -> last (pre ++ s) = last s.
Proof.
  intros Hs. destruct s as [|x s _] using rev_ind; [contradiction |].
  now rewrite app_assoc, !last_snoc.
Qed.

(** [rstrip] returns a text that does not end with white space. *)
Lemma rstrip_last (s : str) :
  match last (rstrip s) with
  | Some c => isspace c = false
  | None => True
  end.
Proof.
  unfold rstrip. pose proof (lstrip_head (rev s)) as H.
  destruct (lstrip (rev s)) as [|c t]; [exact I |].
  simpl. now rewrite last_snoc.
Qed.

(** A stripped text neither starts nor ends with white space. *)
Lemma strip_ends (s : str) :
  match strip s with c :: _ => isspace c = false | [] => True end /\
  match last (strip s) with Some c => isspace c = false | None => True end.
Proof.
  unfold strip. split; [apply lstrip_head |].
  destruct (lstrip_suffix (rstrip s)) as [pre Hpre].
  pose proof (rstrip_last s) as Hlast.
  destruct (lstrip (rstrip s)) as [|c t] eqn:Hl; [exact I |].
  rewrite Hpre, last_app_nonempty in Hlast by discriminate. exact Hlast.
Qed.

Lemma rstrip_fixed (s : str) :
  match last s with Some c => isspace c = false | None => True end ->
  rstrip s = s.
Proof.
  intros H. unfold rstrip. rewrite lstrip_fixed; [apply rev_involutive |].
  destruct s as [|x s _] using rev_ind; [exact I |].
  rewrite last_snoc in H. now rewrite rev_app_distr.
Qed.

Lemma strip_strip (s : str) : strip (strip s) = strip s.
Proof.
  destruct (strip_ends s) as [Hhead Hlast].
  unfold strip at 1. now rewrite rstrip_fixed, lstrip_fixed.
Qed.

Section Backend.

Variable complete : list request -> request -> api_outcome.

(** Whatever [_call_llm] returns is a stripped text. *)
Lemma _call_llm_returns (system user model notes : str) (w w' : llm_calls) :
  _call_llm complete system user model w = (w', Return notes) ->
  exists content, notes = strip content.
Proof.
  unfold _call_llm, try_except, bind, chat_completions_create, ret.
  destruct (complete w (mk_request model system user)) as [c | e].
  - intros [= _ <-]. now exists c.
  - destruct e; discriminate.
Qed.

(** X5. Whenever [summarize_transcript] returns, the notes it returns are
    stripped: they neither start nor end with white space, and stripping
    them again changes nothing. *)
Theorem notes_are_stripped (transcript title : str) (course : option str)
    (model notes : str) (w w' : llm_calls) :
  summarize_transcript complete transcript title course model w
  = (w', Return notes) ->
  strip notes = notes /\
  match notes with c :: _ => isspace c = false | [] => True end /\
  match last notes with Some c => isspace c = false | None => True end.
Proof.
  intros Hrun.
  assert (Hstrip : exists content, notes = strip content).
  { revert Hrun. unfold summarize_transcript.
    destruct (_word_count transcript <=? 10000).
    - apply _call_llm_returns.
    - unfold bind at 1.
      destruct (for_fold _ _ _ w) as [w1 [partial | e]]; [| discriminate].
      apply _call_llm_returns. }
  destruct Hstrip as [content ->].
  split; [apply strip_strip | apply strip_ends].
Qed.

(** The map step up to its first failing call: the calls before it are
    answered, the failing one is the last call made, and the client
    library's error ends the step with [SystemExit(1)]. *)
Lemma map_step_fails (model header : str) (n : Z) (e : exn)
    (l : list (Z * str)) :
  e = AuthenticationError \/ e = OpenAIError ->
  forall (k : nat) (acc : list str) (w : llm_calls),
    let reqs :=
      List.map
        (fun '(i, chunk) =>
           mk_request model _SYSTEM_PROMPT (chunk_user_msg header n i chunk))
        l in
    (forall i q, (i < k)%nat -> reqs !! i = Some q ->
       exists c, complete (w ++ take i reqs) q = Responded c) ->
    (exists q, reqs !! k = Some q /\
       complete (w ++ take k reqs) q = Failed e) ->
    for_fold l
      (fun acc '(i, chunk) =>
         bind (_call_llm complete _SYSTEM_PROMPT
                 (chunk_user_msg header n i chunk) model)
              (fun s => ret (acc ++ [s])))
      acc w
    = (w ++ take (S k) reqs, Raise (SystemExit 1)).
Proof.
  intros He. induction l as [|[i chunk] l IH]; intros k acc w reqs Hok Hfail.
  - destruct Hfail as (q & Hq & _). discriminate.
  - cbn [for_fold]. subst reqs. cbn [List.map] in *.
    set (q0 := mk_request model _SYSTEM_PROMPT (chunk_user_msg header n i chunk)) in *.
    destruct k as [|k].
    + destruct Hfail as (q & [= <-] & Hq). simpl in Hq. rewrite app_nil_r in Hq.
      erewrite bind_raise; [| erewrite bind_raise; [reflexivity |]].
      * cbn [take]. now rewrite take_0.
      * now apply SummarizeClaims._call_llm_exits with (e := e).
    + destruct (Hok 0%nat q0 ltac:(lia) eq_refl) as [c Hc].
      simpl in Hc. rewrite app_nil_r in Hc.
      erewrite bind_run;
        [| erewrite bind_run;
           [reflexivity
           | exact (SummarizeClaims._call_llm_responded complete _ _ _ c w Hc)]].
      rewrite (IH k).
      * cbn [take]. now rewrite <- app_assoc.
      * intros j q Hj Hq. rewrite <- app_assoc.
        apply (Hok (S j) q ltac:(lia) Hq).
      * destruct Hfail as (q & Hq & Hq'). exists q. split; [exact Hq |].
        now rewrite <- app_assoc.
Qed.

(** X6. On a transcript of more than 10,000 words, when the calls for the
    chunks before chunk [k] are answered and the call for chunk [k] fails
    with the client library's error, [summarize_transcript] has issued
    exactly the calls for chunks 0 to [k], issues no merge call, and leaves
    through [sys.exit(1)]. *)
Theorem summarize_stops_at_first_failure (transcript title : str)
    (course : option str) (model : str) (w : llm_calls) (k : nat) (e : exn) :
  10000 < _word_count transcript ->
  e = AuthenticationError \/ e = OpenAIError ->
  (forall i q, (i < k)%nat ->
     chunk_requests model (context_header title course)
       (_chunk_transcript transcript) !! i = Some q ->
     exists c,
       complete
         (w ++ take i (chunk_requests model (context_header title course)
                         (_chunk_transcript transcript))) q
       = Responded c) ->
  (exists q,
     chunk_requests model (context_header title course)
       (_chunk_transcript transcript) !! k = Some q /\
     complete
       (w ++ take k (chunk_requests model (context_header title course)
                       (_chunk_transcript transcript))) q
     = Failed e) ->
  summarize_transcript complete transcript title course model w
  = (w ++ take (S k) (chunk_requests model (context_header title course)
                        (_chunk_transcript transcript)),
     Raise (SystemExit 1)).
Proof.
  intros Hlong He Hok Hfail. unfold summarize_transcript.
  destruct (Z.leb_spec (_word_count transcript) 10000); [lia |].
  erewrite bind_raise; [reflexivity |].
  now apply (map_step_fails model _ _ e).
Qed.

End Backend.

Lemma notes_are_stripped_witness :
  strip (strip (context_header (lit "Sets") None ++ sep_rule ++ sample_transcript 3))
  = strip (context_header (lit "Sets") None ++ sep_rule ++ sample_transcript 3) /\
  match strip (context_header (lit "Sets") None ++ sep_rule ++ sample_transcript 3) with
  | c :: _ => isspace c = false
  | [] => True
  end /\
  match last (strip (context_header (lit "Sets") None ++ sep_rule ++ sample_transcript 3)) with
  | Some c => isspace c = false
  | None => True
  end.
Proof.
  apply (notes_are_stripped echo (sample_transcript 3) (lit "Sets") None
           (lit "gpt-4o-mini") _ []
           [mk_request (lit "gpt-4o-mini") _SYSTEM_PROMPT
              (context_header (lit "Sets") None ++ sep_rule ++ sample_transcript 3)]).
  reflexivity.
Defined.

Lemma summarize_stops_at_first_failure_witness :
  summarize_transcript MoreInputs.flaky (sample_transcript 10001) (lit "Sets")
    None (lit "gpt-4o-mini") []
  = ([] ++ take 2 (chunk_requests (lit "gpt-4o-mini")
                     (context_header (lit "Sets") None)
                     (_chunk_transcript (sample_transcript 10001))),
     Raise (SystemExit 1)).
Proof.
  assert (Hlen : length (chunk_requests (lit "gpt-4o-mini")
                           (context_header (lit "Sets") None)
                           (_chunk_transcript (sample_transcript 10001))) = 2%nat)
    by (vm_compute; reflexivity).
  apply (summarize_stops_at_first_failure MoreInputs.flaky
           (sample_transcript 10001) (lit "Sets") None (lit "gpt-4o-mini") []
           1 OpenAIError).
  - apply Z.ltb_lt. vm_compute. reflexivity.
  - now right.
  - intros i q Hi _. destruct i as [|i]; [| lia]. eexists. reflexivity.
  - revert Hlen.
    generalize (chunk_requests (lit "gpt-4o-mini")
                  (context_header (lit "Sets") None)
                  (_chunk_transcript (sample_transcript 10001))).
    intros [|x [|y [|z reqs]]]; try discriminate. intros _.
    exists y. split; reflexivity.
Defined.

End SummarizeMore.

(** ** More on the marker file *)

Module StateMore.
Import Py State StateWrite.

Section Yaml.

Variable safe_load : str -> option loaded.

Lemma info_parsed (w : host) (s : str) (v : loaded) :
  state_file w = Content s -> safe_load s = Some v ->
  get_recording_info safe_load w = (w, Return v).
Proof.
  intros Hs Hv. unfold get_recording_info, try_except, open_and_load.
  now rewrite Hs, Hv.
Qed.

(** [is_recording] on a marker that parses to the record [d]. *)
Lemma is_recording_record (w : host) (s : str) (d : gmap str pyobj) :
  state_file w = Content s -> safe_load s = Some (LDict d) ->
  is_recording safe_load w
  = match default ONone (d !! lit "pid") with
    | ONone => (mk_host Missing (kill0 w), Return false)
    | pid =>
        match os_kill0 pid w with
        | (_, Return _) => (w, Return true)
        | (_, Raise ProcessLookupError) => (mk_host Missing (kill0 w), Return false)
        | (_, Raise PermissionError) => (w, Return true)
        | (_, Raise e) => (w, Raise e)
        end
    end.
Proof.
  intros Hs Hv. unfold is_recording. rewrite Hs. cbn [exists_ negb].
  rewrite (bind_run _ _ _ _ _ (info_parsed w s _ Hs Hv)). cbn [is_None].
  unfold get, bind at 1, ret at 1.
  destruct (default ONone (d !! lit "pid")) as [|b|z|t|] eqn:Hpid;
    [reflexivity | | | reflexivity | reflexivity];
    unfold try_except, bind, os_kill0;
    destruct (kill0 w _) as [e|]; try reflexivity; destruct e; reflexivity.
Qed.

(** X7. [is_recording] never writes the marker and never changes what
    the probe sees: afterwards the marker is as before or gone.  When it
    answers [True] or raises, the host is exactly as before; when it
    answers [False], the marker is gone or [get_recording_info] reads it
    as [None]. *)
Theorem is_recording_frame (w : host) :
  kill0 (is_recording safe_load w).1 = kill0 w /\
  (state_file (is_recording safe_load w).1 = state_file w \/
   state_file (is_recording safe_load w).1 = Missing) /\
  ((is_recording safe_load w).2 = Return true ->
   (is_recording safe_load w).1 = w) /\
  (forall e, (is_recording safe_load w).2 = Raise e ->
   (is_recording safe_load w).1 = w) /\
  ((is_recording safe_load w).2 = Return false ->
   state_file (is_recording safe_load w).1 = Missing \/
   get_recording_info safe_load w = (w, Return (LObj ONone))).
Proof.
  destruct (state_file w) as [| |s] eqn:Hs.
  - assert (Hrun : is_recording safe_load w = (w, Return false))
      by (unfold is_recording; now rewrite Hs).
    rewrite Hrun. simpl. rewrite Hs. repeat split; auto; discriminate.
  - assert (Hinfo : get_recording_info safe_load w = (w, Return (LObj ONone)))
      by (unfold get_recording_info, try_except, open_and_load; now rewrite Hs).
    assert (Hrun : is_recording safe_load w = (w, Return false)).
    { unfold is_recording. rewrite Hs. cbn [exists_ negb].
      now rewrite (bind_run _ _ _ _ _ Hinfo). }
    rewrite Hrun. simpl. repeat split; auto; discriminate.
  - destruct (safe_load s) as [[d|o]|] eqn:Hv.
    + rewrite (is_recording_record w s d Hs Hv).
      destruct (default ONone (d !! lit "pid")) as [|b|z|t|];
        unfold os_kill0; try destruct (kill0 w _) as [[]|];
        simpl; rewrite ?Hs; repeat split; auto; discriminate.
    + pose proof (info_parsed w s _ Hs Hv) as Hinfo.
      assert (Hrun : is_recording safe_load w
                     = (w, if is_None (LObj o) then Return false
                           else Raise AttributeError)).
      { unfold is_recording. rewrite Hs. cbn [exists_ negb].
        rewrite (bind_run _ _ _ _ _ Hinfo). now destruct o. }
      rewrite Hrun. destruct o; simpl; repeat split; auto; discriminate.
    + assert (Hinfo : get_recording_info safe_load w = (w, Return (LObj ONone)))
        by (unfold get_recording_info, try_except, open_and_load; now rewrite Hs, Hv).
      assert (Hrun : is_recording safe_load w = (w, Return false)).
      { unfold is_recording. rewrite Hs. cbn [exists_ negb].
        now rewrite (bind_run _ _ _ _ _ Hinfo). }
      rewrite Hrun. simpl. repeat split; auto; discriminate.
Qed.

(** X8. A marker that parses to a record without process id, or with a
    null one, is stale: [is_recording] removes the marker and answers
    [False], whatever the processes on the host are. *)
Theorem marker_without_pid (w : host) (s : str) (d : gmap str pyobj) :
  state_file w = Content s ->
  safe_load s = Some (LDict d) ->
  d !! lit "pid" = None \/ d !! lit "pid" = Some ONone ->
  is_recording safe_load w = (mk_host Missing (kill0 w), Return false).
Proof.
  intros Hs Hv Hpid. rewrite (is_recording_record w s d Hs Hv).
  now destruct Hpid as [-> | ->].
Qed.

(** X9. A marker that parses, but not to a record, makes [is_recording]
    raise [AttributeError]; a record whose process id is a text or another
    non-number makes it raise [TypeError].  Either way the marker stays. *)
Theorem garbage_marker_raises (w : host) (s : str) :
  (forall o, safe_load s = Some (LObj o) -> o <> ONone ->
   state_file w = Content s ->
   is_recording safe_load w = (w, Raise AttributeError)) /\
  (forall d pid, safe_load s = Some (LDict d) ->
   d !! lit "pid" = Some pid ->
   (exists t, pid = OStr t) \/ pid = OOther ->
   state_file w = Content s ->
   is_recording safe_load w = (w, Raise TypeError)).
Proof.
  split.
  - intros o Hv Ho Hs. pose proof (info_parsed w s _ Hs Hv) as Hinfo.
    unfold is_recording. rewrite Hs. cbn [exists_ negb].
    rewrite (bind_run _ _ _ _ _ Hinfo).
    destruct o; try contradiction; reflexivity.
  - intros d pid Hv Hpid Hkind Hs.
    rewrite (is_recording_record w s d Hs Hv), Hpid.
    destruct Hkind as [[t ->] | ->]; reflexivity.
Qed.

Section Dump.

Variable dump : gmap str pyobj -> str.

(** X10. Writing the marker and reading it back: when the YAML library
    reads back the record it dumped, then after [write_state], whatever
    marker was there before, [get_recording_info] returns the record with
    its five fields, and [is_recording] answers by the probe of the
    written process id: [True] with the marker kept when the process is
    there, [False] with the marker removed when it is not. *)
Theorem write_state_then_read (w : host) (now : str) (pid : Z)
    (course title date : str) :
  state_file w <> Unreadable ->
  safe_load (dump (state_dict pid course title date now))
  = Some (LDict (state_dict pid course title date now)) ->
  (write_state dump now pid course title date w).2 = Return tt /\
  get_recording_info safe_load (write_state dump now pid course title date w).1
  = ((write_state dump now pid course title date w).1,
     Return (LDict (state_dict pid course title date now))) /\
  (kill0 w pid = None \/ kill0 w pid = Some PermissionError ->
   is_recording safe_load (write_state dump now pid course title date w).1
   = ((write_state dump now pid course title date w).1, Return true)) /\
  (kill0 w pid = Some ProcessLookupError ->
   is_recording safe_load (write_state dump now pid course title date w).1
   = (mk_host Missing (kill0 w), Return false)).
Proof.
  intros Hopen Hround.
  set (d := state_dict pid course title date now) in *.
  assert (Hw : write_state dump now pid course title date w
               = (mk_host (Content (dump d)) (kill0 w), Return tt)).
  { unfold write_state. fold d. destruct (state_file w); congruence. }
  rewrite Hw. cbn [fst snd].
  set (w1 := mk_host (Content (dump d)) (kill0 w)).
  assert (Hpid : d !! lit "pid" = Some (OInt pid))
    by (unfold d, state_dict; apply lookup_insert_eq).
  split; [reflexivity | split; [| split]].
  - now apply (info_parsed w1 (dump d)).
  - intros Halive.
    rewrite (is_recording_record w1 (dump d) d eq_refl Hround), Hpid.
    cbn [default from_option id os_kill0 kill0 w1].
    destruct Halive as [-> | ->]; reflexivity.
  - intros Hdead.
    rewrite (is_recording_record w1 (dump d) d eq_refl Hround), Hpid.
    cbn [default from_option id os_kill0 kill0 w1].
    now rewrite Hdead.
Qed.

End Dump.

End Yaml.

Lemma is_recording_frame_witness :
  (is_recording MoreInputs.one_load MoreInputs.some_marker).1
  = MoreInputs.some_marker /\
  (is_recording sample_load corrupt_host).1 = corrupt_host.
Proof.
  split.
  - apply (proj1 (proj2 (proj2 (is_recording_frame MoreInputs.one_load
                                  MoreInputs.some_marker)))).
    reflexivity.
  - destruct (proj2 (proj2 (proj2 (proj2 (is_recording_frame sample_load
                                            corrupt_host))))
                eq_refl) as [Hgone | Hnone].
    + discriminate Hgone.
    + reflexivity.
Defined.

Lemma marker_without_pid_witness :
  is_recording MoreInputs.no_pid_load MoreInputs.some_marker
  = (mk_host Missing (kill0 MoreInputs.some_marker), Return false).
Proof.
  apply (marker_without_pid MoreInputs.no_pid_load MoreInputs.some_marker
           (lit "CS 301") {[ lit "course" := OStr (lit "CS 301") ]}).
  - reflexivity.
  - reflexivity.
  - left. apply lookup_singleton_ne. vm_compute. discriminate.
Defined.

Lemma garbage_marker_raises_witness :
  is_recording MoreInputs.scalar_load MoreInputs.some_marker
  = (MoreInputs.some_marker, Raise AttributeError) /\
  is_recording MoreInputs.text_pid_load MoreInputs.some_marker
  = (MoreInputs.some_marker, Raise TypeError).
Proof.
  split.
  - apply (proj1 (garbage_marker_raises MoreInputs.scalar_load
                    MoreInputs.some_marker (lit "CS 301"))
             (OStr (lit "CS 301"))); [reflexivity | discriminate | reflexivity].
  - apply (proj2 (garbage_marker_raises MoreInputs.text_pid_load
                    MoreInputs.some_marker (lit "CS 301"))
             {[ lit "pid" := OStr (lit "CS 301") ]} (OStr (lit "CS 301")));
      [reflexivity | apply lookup_singleton_eq | left; eauto | reflexivity].
Defined.

Lemma write_state_then_read_witness :
  (write_state MoreInputs.one_dump (lit "2024-03-04T09:00:00") 4242
     (lit "CS 301") (lit "Sets") (lit "2024-03-04") MoreInputs.idle_host).2
  = Return tt /\
  is_recording MoreInputs.one_load
    (write_state MoreInputs.one_dump (lit "2024-03-04T09:00:00") 4242
       (lit "CS 301") (lit "Sets") (lit "2024-03-04") MoreInputs.idle_host).1
  = (mk_host Missing (kill0 MoreInputs.idle_host), Return false).
Proof.
  destruct (write_state_then_read MoreInputs.one_load MoreInputs.one_dump
              MoreInputs.idle_host (lit "2024-03-04T09:00:00") 4242
              (lit "CS 301") (lit "Sets") (lit "2024-03-04"))
    as (Hret & _ & _ & Hdead).
  - discriminate.
  - reflexivity.
  - split; [exact Hret | apply Hdead; reflexivity].
Defined.

End StateMore.

(** ** More on the chunked transcription *)

Module TranscribeMore.
Import Py PyFacts Transcribe.

(** *** Chunk file names *)

Lemma digits_of_uint_inj (u v : Decimal.uint) :
  digits_of_uint u = digits_of_uint v -> u = v.
Proof.
  revert v. induction u as [|u IH|u IH|u IH|u IH|u IH|u IH|u IH|u IH|u IH|u IH];
    intros [|v|v|v|v|v|v|v|v|v|v]; simpl; unfold digit; simpl;
    intros H; try discriminate H; try reflexivity;
    injection H as H; f_equal; now apply IH.
Qed.

Lemma padded_digits (k : nat) (u : Decimal.uint) :
  replicate k (digit 0) ++ digits_of_uint u
  = digits_of_uint (Nat.iter k Decimal.D0 u).
Proof. induction k as [|k IH]; simpl; [reflexivity | now rewrite IH]. Qed.

Lemma of_uint_padded (k : nat) (n : N) :
  N.of_uint (Nat.iter k Decimal.D0 (N.to_uint n)) = n.
Proof.
  rewrite <- DecimalN.Unsigned.of_uint_norm, DecimalFacts.unorm_iter_D0.
  now rewrite DecimalN.Unsigned.of_uint_norm, DecimalN.Unsigned.of_to.
Qed.

(** Zero-padded numbers of different indices differ. *)
Lemma fmt_03d_inj (n m : Z) :
  0 <= n -> 0 <= m -> fmt_03d n = fmt_03d m -> n = m.
Proof.
  intros Hn Hm. unfold fmt_03d, fmt_d. rewrite !padded_digits.
  intros H%digits_of_uint_inj. apply (f_equal N.of_uint) in H.
  rewrite !of_uint_padded in H. lia.
Qed.

Lemma chunk_name_inj (i j : Z) (sfx : str) :
  0 <= i -> 0 <= j -> chunk_name i sfx = chunk_name j sfx -> i = j.
Proof.
  intros Hi Hj. unfold chunk_name.
  intros H%app_inv_head%app_inv_tail. now apply fmt_03d_inj.
Qed.

Lemma range_elem (n x : Z) : x ∈ range n -> 0 <= x < n.
Proof.
  unfold range. change (@List.map) with (@fmap list _).
  intros (k & -> & Hk%elem_of_seq)%list_elem_of_fmap. lia.
Qed.

Lemma range_NoDup (n : Z) : NoDup (range n).
Proof.
  unfold range. change (@List.map) with (@fmap list _).
  apply NoDup_fmap_2_strong; [| apply NoDup_seq].
  intros x y _ _ H. now apply Nat2Z.inj.
Qed.

Lemma range_at (n : Z) (i : nat) :
  range n !! i = if decide (Z.of_nat i < n) then Some (Z.of_nat i) else None.
Proof.
  unfold range. change (@List.map) with (@fmap list _).
  rewrite list_lookup_fmap.
  destruct (decide (Z.of_nat i < n)).
  - now rewrite lookup_seq_lt by lia.
  - now rewrite lookup_seq_ge by lia.
Qed.

Lemma chunk_paths_NoDup (a : audio_file) (w : disk) :
  NoDup (chunk_paths_of a w).
Proof.
  unfold chunk_paths_of. change (@List.map) with (@fmap list _).
  apply NoDup_fmap_2_strong; [| apply range_NoDup].
  intros x y Hx%range_elem Hy%range_elem H.
  apply app_inv_head in H.
  assert (Hname : chunk_name x (suffix a) = chunk_name y (suffix a))
    by congruence.
  apply (chunk_name_inj x y (suffix a)); [lia | lia | exact Hname].
Qed.

(** *** Files written one after the other *)

Lemma write_all_notin (l : list (path * content)) :
  forall (m : gmap path content) (q : path),
    q ∉ l.*1 -> write_all m l !! q = m !! q.
Proof.
  induction l as [|[p c] l IH]; intros m q Hq; [reflexivity |].
  simpl in *. apply not_elem_of_cons in Hq as [Hne Hq].
  rewrite IH by assumption. now apply lookup_insert_ne.
Qed.

Lemma write_all_lookup (l : list (path * content)) :
  NoDup l.*1 ->
  forall (m : gmap path content) (i : nat) (p : path) (c : content),
    l !! i = Some (p, c) -> write_all m l !! p = Some c.
Proof.
  induction l as [|[p0 c0] l IH]; intros Hnd m i p c Hi; [discriminate |].
  simpl in Hnd. apply NoDup_cons in Hnd as [Hnotin Hnd].
  destruct i as [|i]; simpl in *.
  - injection Hi as <- <-.
    rewrite write_all_notin by assumption. apply lookup_insert_eq.
  - now apply (IH Hnd _ i).
Qed.

Lemma sizes_of_quotient (size : Z) :
  0 <= size -> num_chunks size 24 = size / 25165824 + 1.
Proof.
  intros Hsize. unfold num_chunks, py_int.
  assert (Heq : (file_size_mb size / inject_Z 24 == size # 25165824)%Q)
    by (unfold file_size_mb, Qdiv, Qmult, Qinv, inject_Z, Qeq; simpl; lia).
  assert (Hle : Qle_bool 0 (file_size_mb size / inject_Z 24) = true)
    by (apply Qle_bool_iff; rewrite Heq; unfold Qle; simpl; lia).
  rewrite Hle, Heq. reflexivity.
Qed.

Lemma exported_lookup (a : audio_file) (w : disk) (i : nat) :
  Z.of_nat i < num_chunks (st_size a) 24 ->
  exported a w !! i
  = Some (child (new_dir w) (chunk_name (Z.of_nat i) (suffix a)),
          Piece
            (chunk_range (duration_ms a) (num_chunks (st_size a) 24)
               (duration_ms a / num_chunks (st_size a) 24) (Z.of_nat i)).1
            (chunk_range (duration_ms a) (num_chunks (st_size a) 24)
               (duration_ms a / num_chunks (st_size a) 24) (Z.of_nat i)).2).
Proof.
  intros Hi. unfold exported, chunk_paths_of, audio_chunk_plan.
  rewrite List.map_map, TranscribeClaims.zip_map_same.
  change (@List.map) with (@fmap list _).
  rewrite list_lookup_fmap, range_at, decide_True by exact Hi.
  reflexivity.
Qed.

(** X11. [split_audio] with the 24 MB limit returns one path per chunk of
    the plan, pairwise distinct and all directly inside a directory that
    did not exist before; the file of chunk [i] is named by the
    zero-padded index and holds the piece of the plan with that index;
    no file that was on disk changes, and the new directory is the only
    one added. *)
Theorem split_audio_files (a : audio_file) (w : disk) :
  0 <= st_size a ->
  (split_audio a 24 w).2 = Return (chunk_paths_of a w) /\
  len (chunk_paths_of a w) = num_chunks (st_size a) 24 /\
  NoDup (chunk_paths_of a w) /\
  (forall p, p ∈ chunk_paths_of a w ->
     parent p = new_dir w /\ files w !! p = None) /\
  (forall i : nat,
     Z.of_nat i < num_chunks (st_size a) 24 ->
     chunk_paths_of a w !! i
     = Some (child (new_dir w) (chunk_name (Z.of_nat i) (suffix a))) /\
     audio_chunk_plan (st_size a) (duration_ms a) 24 !! i
     = Some (chunk_range (duration_ms a) (num_chunks (st_size a) 24)
               (duration_ms a / num_chunks (st_size a) 24) (Z.of_nat i)) /\
     files (split_audio a 24 w).1
       !! child (new_dir w) (chunk_name (Z.of_nat i) (suffix a))
     = Some (Piece
               (chunk_range (duration_ms a) (num_chunks (st_size a) 24)
                  (duration_ms a / num_chunks (st_size a) 24) (Z.of_nat i)).1
               (chunk_range (duration_ms a) (num_chunks (st_size a) 24)
                  (duration_ms a / num_chunks (st_size a) 24) (Z.of_nat i)).2)) /\
  (forall q, q ∉ chunk_paths_of a w ->
     files (split_audio a 24 w).1 !! q = files w !! q) /\
  dirs (split_audio a 24 w).1 = {[new_dir w]} ∪ dirs w /\
  (new_dir w ∉ dirs w).
Proof.
  intros Hsize. rewrite TranscribeClaims.split_audio_run. cbn [fst snd files dirs].
  assert (Hn : 1 <= num_chunks (st_size a) 24).
  { rewrite sizes_of_quotient by assumption.
    assert (0 <= st_size a / 25165824) by (apply Z.div_pos; lia). lia. }
  split; [reflexivity |].
  split; [unfold chunk_paths_of, len, range;
          rewrite !length_map, length_seq; lia |].
  split; [apply chunk_paths_NoDup |].
  split.
  { intros p Hp. split.
    - now apply (TranscribeClaims.chunk_paths_parent a).
    - now apply (TranscribeClaims.chunk_paths_new a). }
  split.
  { intros i Hi. split; [| split].
    - unfold chunk_paths_of. change (@List.map) with (@fmap list _).
      now rewrite list_lookup_fmap, range_at, decide_True.
    - unfold audio_chunk_plan. change (@List.map) with (@fmap list _).
      now rewrite list_lookup_fmap, range_at, decide_True.
    - apply (write_all_lookup (exported a w)) with (i := i).
      + rewrite TranscribeClaims.exported_paths. apply chunk_paths_NoDup.
      + now apply exported_lookup. }
  split.
  { intros q Hq. apply write_all_notin.
    now rewrite TranscribeClaims.exported_paths. }
  split; [reflexivity | apply TranscribeClaims.new_dir_fresh].
Qed.

(** X12. With the 24 MB limit, the chunk count is the least number of
    equal parts that are each strictly smaller than 24 MB: the file is
    smaller than the count times 24 MB, and not smaller than one chunk
    fewer times 24 MB. *)
Theorem chunks_stay_under_limit (size : Z) :
  0 <= size ->
  (num_chunks size 24 - 1) * 25165824 <= size < num_chunks size 24 * 25165824.
Proof.
  intros Hsize. rewrite sizes_of_quotient by assumption.
  pose proof (Z.div_mod size 25165824 ltac:(lia)) as Hd.
  pose proof (Z.mod_pos_bound size 25165824 ltac:(lia)) as Hm.
  lia.
Qed.

(** X13. In the plan, the last chunk is the longest: it lasts as long as
    the others plus the remainder of the division of the audio length by
    the chunk count, which is less than the chunk count in milliseconds. *)
Theorem last_chunk_remainder (size audio_len : Z) (s e : Z) :
  0 <= size -> 0 <= audio_len ->
  last (audio_chunk_plan size audio_len 24) = Some (s, e) ->
  e - s = audio_len / num_chunks size 24 + audio_len mod num_chunks size 24 /\
  0 <= audio_len mod num_chunks size 24 < num_chunks size 24.
Proof.
  intros Hsize Hlen.
  assert (Hn : 1 <= num_chunks size 24).
  { rewrite sizes_of_quotient by assumption.
    assert (0 <= size / 25165824) by (apply Z.div_pos; lia). lia. }
  rewrite last_lookup. unfold audio_chunk_plan.
  change (@List.map) with (@fmap list _).
  rewrite length_fmap, list_lookup_fmap, range_at.
  assert (Hr : Z.of_nat (length (range (num_chunks size 24))) = num_chunks size 24)
    by (unfold range; rewrite length_map, length_seq; lia).
  rewrite decide_True by lia. simpl. unfold chunk_range.
  replace (Z.of_nat (Init.Nat.pred (length (range (num_chunks size 24)))))
    with (num_chunks size 24 - 1) by lia.
  rewrite Z.ltb_irrefl. intros [= <- <-].
  pose proof (Z.div_mod audio_len (num_chunks size 24) ltac:(lia)) as Hd.
  pose proof (Z.mod_pos_bound audio_len (num_chunks size 24) ltac:(lia)) as Hm.
  split; [nia | lia].
Qed.

Section Backend.

Variable transcribe : list path -> path -> api_outcome.

(** The world after [split_audio]. *)
Lemma after_split (a : audio_file) (w : disk) (p : path) :
  p ∈ chunk_paths_of a w ->
  is_Some (write_all (files w) (exported a w) !! p).
Proof.
  intros Hp. apply TranscribeClaims.write_all_lookup_in. left.
  now rewrite TranscribeClaims.exported_paths.
Qed.

(** The transcription loop while the backend answers: after [k] answered
    calls it goes on with the remaining files. *)
Lemma transcribe_loop_prefix (ps : list path) :
  forall (k : nat) (ans : nat -> str) (acc : list str) (w : disk),
    (k <= length ps)%nat ->
    (forall p, p ∈ ps -> is_Some (files w !! p)) ->
    (forall i p, (i < k)%nat -> ps !! i = Some p ->
       transcribe (calls w ++ take i ps) p = Responded (ans i)) ->
    for_fold ps
      (fun parts chunk_path =>
         bind (_transcribe_single transcribe chunk_path)
              (fun text => ret (parts ++ [text])))
      acc w
    = for_fold (drop k ps)
        (fun parts chunk_path =>
           bind (_transcribe_single transcribe chunk_path)
                (fun text => ret (parts ++ [text])))
        (acc ++ List.map ans (seq 0 k))
        (mk_disk (files w) (dirs w) (calls w ++ take k ps)).
Proof.
  induction ps as [|p ps IH]; intros k ans acc w Hk Hdisk Hans.
  - destruct k; [| simpl in Hk; lia]. simpl. rewrite !app_nil_r. now destruct w.
  - destruct k as [|k].
    + simpl. rewrite !app_nil_r. now destruct w.
    + cbn [for_fold drop].
      pose proof (TranscribeClaims._transcribe_single_run transcribe p w
                    (Hdisk p ltac:(left))) as Hrun.
      pose proof (Hans 0%nat p ltac:(lia) eq_refl) as H0.
      simpl in H0. rewrite app_nil_r in H0. rewrite H0 in Hrun. simpl in Hrun.
      erewrite bind_run; [| erewrite bind_run; [reflexivity | exact Hrun]].
      rewrite (IH k (fun i => ans (S i))).
      * cbn [files dirs calls take seq List.map].
        rewrite <- seq_shift, List.map_map, <- !app_assoc. reflexivity.
      * simpl in Hk. lia.
      * intros q Hq. apply Hdisk. now right.
      * intros i q Hi Hq. cbn [calls]. rewrite <- app_assoc.
        apply (Hans (S i) q ltac:(lia) Hq).
Qed.

(** From the outcome of the transcription loop to the outcome of
    [_transcribe_api] on an oversized file: the clean-up restores the disk
    and keeps the loop's outcome. *)
Lemma _transcribe_api_finish (a : audio_file) (w : disk) (cs : list path)
    (r : result (list str)) :
  Qle_bool (file_size_mb (st_size a)) (inject_Z 24) = false ->
  for_fold (chunk_paths_of a w)
    (fun parts chunk_path =>
       bind (_transcribe_single transcribe chunk_path)
            (fun text => ret (parts ++ [text])))
    []
    (mk_disk (write_all (files w) (exported a w)) ({[new_dir w]} ∪ dirs w)
       (calls w))
  = (mk_disk (write_all (files w) (exported a w)) ({[new_dir w]} ∪ dirs w) cs,
     r) ->
  _transcribe_api transcribe a w
  = (mk_disk (files w) (dirs w) cs,
     match r with
     | Return parts => Return (join (lit " ") parts)
     | Raise e => Raise e
     end).
Proof.
  intros Hbig Hloop.
  pose proof (TranscribeClaims.oversized_size _ Hbig) as Hsize.
  destruct (TranscribeClaims.new_dir_fresh w) as [Hfresh_dir Hfresh_files].
  assert (Hps : exists first rest,
             chunk_paths_of a w = first :: rest /\ parent first = new_dir w).
  { assert (Hn : 1 <= num_chunks (st_size a) 24).
    { rewrite sizes_of_quotient by lia.
      assert (0 <= st_size a / 25165824) by (apply Z.div_pos; lia). lia. }
    unfold chunk_paths_of, range.
    replace (Z.to_nat (num_chunks (st_size a) 24))
      with (S (Z.to_nat (num_chunks (st_size a) 24 - 1))) by lia.
    simpl. eexists _, _. split; [reflexivity | apply TranscribeClaims.parent_child]. }
  destruct Hps as (first & rest & Hps & Hparent).
  unfold _transcribe_api. rewrite Hbig.
  erewrite bind_run; [| apply TranscribeClaims.split_audio_run].
  rewrite Hps, Hparent, <- Hps. unfold try_finally.
  unfold bind at 1. rewrite Hloop.
  assert (Hbody : (let (w', r0) :=
                     (mk_disk (write_all (files w) (exported a w))
                        ({[new_dir w]} ∪ dirs w) cs, r) in
                   match r0 with
                   | Return parts => ret (join (lit " ") parts) w'
                   | Raise e => (w', Raise e)
                   end)
                  = (mk_disk (write_all (files w) (exported a w))
                       ({[new_dir w]} ∪ dirs w) cs,
                     match r with
                     | Return parts => Return (join (lit " ") parts)
                     | Raise e => Raise e
                     end))
    by now destruct r.
  rewrite Hbody.
  erewrite bind_run; [| apply TranscribeClaims.unlink_loop].
  unfold rmdir. cbn [files dirs calls].
  rewrite (TranscribeClaims.delete_exported a w).
  rewrite decide_True
    by (split; [apply elem_of_union; left; now apply elem_of_singleton
               | exact Hfresh_files]).
  rewrite (TranscribeClaims.remove_added _ _ Hfresh_dir).
  now destruct r.
Qed.

(** X14. A file of at most 24 MB is sent whole, in one backend call, and
    nothing on disk changes; the answer is returned as it is (the client
    library's errors become [SystemExit(1)]).  When the file is not there,
    opening it raises and the backend is not called. *)
Theorem small_file_single_call (a : audio_file) (w : disk) :
  Qle_bool (file_size_mb (st_size a)) (inject_Z 24) = true ->
  (is_Some (files w !! audio_path a) ->
   _transcribe_api transcribe a w
   = (mk_disk (files w) (dirs w) (calls w ++ [audio_path a]),
      single_result (transcribe (calls w) (audio_path a)))) /\
  (files w !! audio_path a = None ->
   _transcribe_api transcribe a w = (w, Raise OSError)).
Proof.
  intros Hsmall. unfold _transcribe_api. rewrite Hsmall. split.
  - apply TranscribeClaims._transcribe_single_run.
  - intros Hnone. unfold _transcribe_single, try_except, transcriptions_create.
    now rewrite Hnone.
Qed.

(** X15. When every chunk of an oversized file is transcribed, each chunk
    file was sent exactly once, in index order, the text returned is the
    answers joined by single spaces in that order, and the disk is as it
    was before. *)
Theorem chunks_transcribed_in_order (a : audio_file) (w : disk)
    (ans : nat -> str) :
  Qle_bool (file_size_mb (st_size a)) (inject_Z 24) = false ->
  (forall i p, chunk_paths_of a w !! i = Some p ->
     transcribe (calls w ++ take i (chunk_paths_of a w)) p = Responded (ans i)) ->
  _transcribe_api transcribe a w
  = (mk_disk (files w) (dirs w) (calls w ++ chunk_paths_of a w),
     Return (join (lit " ")
               (List.map ans (seq 0 (length (chunk_paths_of a w)))))).
Proof.
  intros Hbig Hans.
  apply (_transcribe_api_finish a w _ (Return _) Hbig).
  rewrite (transcribe_loop_prefix _ (length (chunk_paths_of a w)) ans);
    [| lia | apply after_split | intros i p _ Hp; now apply Hans].
  rewrite drop_all, firstn_all. reflexivity.
Qed.

(** X16. When the chunks before chunk [k] of an oversized file are
    transcribed and the call for chunk [k] fails, no later chunk is sent:
    the calls made are those for chunks 0 to [k], the failure leaves the
    function (as [SystemExit(1)] for the client library's errors), and
    the disk is as it was before. *)
Theorem transcription_stops_at_first_failure (a : audio_file) (w : disk)
    (ans : nat -> str) (k : nat) (p : path) (e : exn) :
  Qle_bool (file_size_mb (st_size a)) (inject_Z 24) = false ->
  chunk_paths_of a w !! k = Some p ->
  (forall i q, (i < k)%nat -> chunk_paths_of a w !! i = Some q ->
     transcribe (calls w ++ take i (chunk_paths_of a w)) q = Responded (ans i)) ->
  transcribe (calls w ++ take k (chunk_paths_of a w)) p = Failed e ->
  _transcribe_api transcribe a w
  = (mk_disk (files w) (dirs w) (calls w ++ take (S k) (chunk_paths_of a w)),
     Raise (single_exn e)).
Proof.
  intros Hbig Hk Hans Hfail.
  apply (_transcribe_api_finish a w _ (Raise (single_exn e)) Hbig).
  pose proof (lookup_lt_Some _ _ _ Hk) as Hlt.
  rewrite (transcribe_loop_prefix _ k ans);
    [| lia | apply after_split | exact Hans].
  rewrite (drop_S _ p k Hk). cbn [for_fold].
  assert (Hsingle :
    _transcribe_single transcribe p
      (mk_disk (write_all (files w) (exported a w)) ({[new_dir w]} ∪ dirs w)
         (calls w ++ take k (chunk_paths_of a w)))
    = (mk_disk (write_all (files w) (exported a w)) ({[new_dir w]} ∪ dirs w)
         (calls w ++ take (S k) (chunk_paths_of a w)),
       Raise (single_exn e))).
  { rewrite TranscribeClaims._transcribe_single_run.
    - cbn [files dirs calls]. rewrite Hfail.
      now rewrite <- app_assoc, (take_S_r _ _ p Hk).
    - cbn [files]. apply after_split. now apply list_elem_of_lookup_2 with k. }
  erewrite bind_raise; [reflexivity |].
  erewrite bind_raise; [reflexivity | exact Hsingle].
Qed.

End Backend.

Lemma small_file_single_call_witness :
  _transcribe_api MoreInputs.whisper_says MoreInputs.memo MoreInputs.memo_disk
  = (mk_disk (files MoreInputs.memo_disk) (dirs MoreInputs.memo_disk)
       (calls MoreInputs.memo_disk ++ [audio_path MoreInputs.memo]),
     single_result
       (MoreInputs.whisper_says (calls MoreInputs.memo_disk)
          (audio_path MoreInputs.memo))) /\
  _transcribe_api MoreInputs.whisper_says MoreInputs.memo empty_disk
  = (empty_disk, Raise OSError).
Proof.
  assert (Hsmall : Qle_bool (file_size_mb (st_size MoreInputs.memo)) (inject_Z 24)
                   = true) by (vm_compute; reflexivity).
  split.
  - apply (proj1 (small_file_single_call MoreInputs.whisper_says MoreInputs.memo
                    MoreInputs.memo_disk Hsmall)).
    exists Audio. apply lookup_singleton_eq.
  - apply (proj2 (small_file_single_call MoreInputs.whisper_says MoreInputs.memo
                    empty_disk Hsmall)).
    apply lookup_empty.
Defined.

Lemma chunks_transcribed_in_order_witness :
  _transcribe_api MoreInputs.whisper_says sample_audio empty_disk
  = (mk_disk (files empty_disk) (dirs empty_disk)
       (calls empty_disk ++ chunk_paths_of sample_audio empty_disk),
     Return (join (lit " ")
               (List.map (fun _ => lit "sets and relations")
                  (seq 0 (length (chunk_paths_of sample_audio empty_disk)))))).
Proof.
  apply (chunks_transcribed_in_order MoreInputs.whisper_says sample_audio
           empty_disk (fun _ => lit "sets and relations")).
  - vm_compute. reflexivity.
  - intros i p _. reflexivity.
Defined.

Lemma transcription_stops_at_first_failure_witness :
  _transcribe_api whisper_down sample_audio empty_disk
  = (mk_disk (files empty_disk) (dirs empty_disk)
       (calls empty_disk ++ take 1 (chunk_paths_of sample_audio empty_disk)),
     Raise (single_exn OpenAIError)).
Proof.
  apply (transcription_stops_at_first_failure whisper_down sample_audio
           empty_disk (fun _ => []) 0
           (child (new_dir empty_disk) (chunk_name 0 (lit ".mp3"))) OpenAIError).
  - vm_compute. reflexivity.
  - unfold chunk_paths_of.
    change (num_chunks (st_size sample_audio) 24) with 2. reflexivity.
  - intros i q Hi. lia.
  - reflexivity.
Defined.

Lemma split_audio_files_witness :
  (split_audio sample_audio 24 empty_disk).2
  = Return (chunk_paths_of sample_audio empty_disk) /\
  len (chunk_paths_of sample_audio empty_disk) = num_chunks 31457280 24 /\
  NoDup (chunk_paths_of sample_audio empty_disk).
Proof.
  destruct (split_audio_files sample_audio empty_disk) as (H1 & H2 & H3 & _).
  - simpl. lia.
  - split; [exact H1 | split; [exact H2 | exact H3]].
Defined.

Lemma chunks_stay_under_limit_witness :
  (num_chunks 50331648 24 - 1) * 25165824 <= 50331648
  < num_chunks 50331648 24 * 25165824.
Proof. apply (chunks_stay_under_limit 50331648). lia. Defined.

Lemma last_chunk_remainder_witness :
  600001 - 400000
  = 600001 / num_chunks 62914560 24 + 600001 mod num_chunks 62914560 24 /\
  0 <= 600001 mod num_chunks 62914560 24 < num_chunks 62914560 24.
Proof.
  apply (last_chunk_remainder 62914560 600001 400000 600001).
  - lia.
  - lia.
  - vm_compute. reflexivity.
Defined.

End TranscribeMore.

(** ** More on the pipeline of the background unit *)

Module CliMore.
Import Py Cli.

Section Run.

Variable home : str.
Variable r : run.
Variable course : str.

(** X17. When the recorder cannot start, [record_internal] sends one
    notification that carries the error text, clears the marker and leaves
    with exit status 1; the pipeline does not run, so no audio is captured
    and no other notification is sent. *)
Theorem microphone_error (w : world) (e : exn) :
  recorder_start r = Raise e ->
  is_Exception e = true ->
  record_internal home r course w
  = (cleared (mk_world (marker_host w) (wav w)
                (notifications w
                 ++ [(failure_title, lit "Mic error: " ++ exn_text r e)])),
     Raise (SystemExit 1)).
Proof.
  intros Hstart Hexn. unfold record_internal.
  erewrite bind_raise; [reflexivity |].
  unfold try_except, call. rewrite Hstart, Hexn. reflexivity.
Qed.

(** X18. When every stage works, [record_internal] returns; it has sent
    exactly the success notification and cleared the marker, and the WAV
    file was moved to the archive when a non-empty archive directory is
    configured and deleted otherwise. *)
Theorem successful_run (w : world) (cfg : config) (transcript summary : str) :
  recorder_start r = Return tt ->
  recorder_stop r = Return tt ->
  load_config r = Return cfg ->
  transcribe_audio r = Return transcript ->
  summarize_transcript r transcript = Return summary ->
  write_notes r = Return tt ->
  archive_fs r = Return tt ->
  record_internal home r course w
  = (cleared (mk_world (marker_host w)
                (match archive_dir cfg with
                 | Some (_ :: _) => Archived
                 | _ => Deleted
                 end)
                (notifications w ++ [success_notice course])),
     Return tt).
Proof.
  intros Hstart Hstop Hcfg Htr Hsum Hwrite Harch.
  apply CliClaims.record_internal_success; [exact Hstart |].
  unfold pipeline, bind, call, stop, _archive_wav, send_notification.
  rewrite Hstop, Hcfg, Htr, Hsum, Hwrite, Harch.
  now destruct (archive_dir cfg) as [[|c cs]|].
Qed.

(** X19. When the recording was captured and a later stage raises an
    [Exception], [record_internal] sends exactly the failure notification,
    clears the marker, leaves the WAV file where the recorder wrote it and
    exits with status 1. *)
Theorem failure_after_capture (w : world) (e : exn) :
  recorder_start r = Return tt ->
  recorder_stop r = Return tt ->
  (pipeline r course w).2 = Raise e ->
  is_Exception e = true ->
  record_internal home r course w
  = (cleared (mk_world (marker_host w) OnDisk
                (notifications w ++ [failure_notice home])),
     Raise (SystemExit 1)) /\
  wav (record_internal home r course w).1 = OnDisk /\
  State.state_file (marker_host (record_internal home r course w).1)
  = State.Missing.
Proof.
  intros Hstart Hstop Hpipe Hexn.
  destruct (pipeline r course w) as [w' res] eqn:Hrun. simpl in Hpipe. subst res.
  rewrite (CliClaims.record_internal_handled home r course w w' e Hstart Hrun Hexn).
  pose proof (CliClaims.pipeline_frame r course w) as [Hhost Hrest].
  rewrite Hrun in Hhost, Hrest. simpl in Hhost, Hrest.
  destruct Hrest as [Hnote Hwav].
  rewrite Hhost, Hnote, (Hwav Hstop). repeat split.
Qed.

End Run.

Lemma microphone_error_witness :
  record_internal (lit "/Users/ada") MoreInputs.no_microphone (lit "CS 301")
    recording_world
  = (cleared (mk_world (marker_host recording_world) (wav recording_world)
                (notifications recording_world
                 ++ [(failure_title,
                      lit "Mic error: "
                      ++ exn_text MoreInputs.no_microphone OSError)])),
     Raise (SystemExit 1)).
Proof.
  apply (microphone_error (lit "/Users/ada") MoreInputs.no_microphone
           (lit "CS 301") recording_world OSError); reflexivity.
Defined.

Lemma successful_run_witness :
  record_internal (lit "/Users/ada") MoreInputs.good_run (lit "CS 301")
    recording_world
  = (cleared (mk_world (marker_host recording_world) Archived
                (notifications recording_world ++ [success_notice (lit "CS 301")])),
     Return tt).
Proof.
  apply (successful_run (lit "/Users/ada") MoreInputs.good_run (lit "CS 301")
           recording_world
           (mk_config (lit "gpt-4o-mini") (Some (lit "~/lectures")))
           (lit "sets and relations") (lit "# Sets")); reflexivity.
Defined.

Lemma failure_after_capture_witness :
  record_internal (lit "/Users/ada") MoreInputs.vault_error (lit "CS 301")
    recording_world
  = (cleared (mk_world (marker_host recording_world) OnDisk
                (notifications recording_world
                 ++ [failure_notice (lit "/Users/ada")])),
     Raise (SystemExit 1)) /\
  wav (record_internal (lit "/Users/ada") MoreInputs.vault_error (lit "CS 301")
         recording_world).1 = OnDisk /\
  State.state_file
    (marker_host (record_internal (lit "/Users/ada") MoreInputs.vault_error
                    (lit "CS 301") recording_world).1)
  = State.Missing.
Proof.
  apply (failure_after_capture (lit "/Users/ada") MoreInputs.vault_error
           (lit "CS 301") recording_world OSError); reflexivity.
Defined.

End CliMore.

(** ** The recorder *)

Module RecorderMore.
Import Py Recorder.

Lemma deliver_run (bs : list block) :
  forall w : world,
    deliver bs w
    = (mk_world (_sample_rate w) (_queue w ++ bs) (_stream w) (_recording w)
         (open_error w) (start_error w) (wavs w),
       Return tt).
Proof.
  unfold deliver. induction bs as [|b bs IH]; intros w.
  - simpl. rewrite app_nil_r. now destruct w.
  - cbn [for_fold]. erewrite bind_run; [| reflexivity].
    rewrite IH. cbn [_sample_rate _queue _stream _recording open_error
                     start_error wavs].
    now rewrite <- app_assoc.
Qed.

Lemma tobytes_length (samples : list Z) :
  len (tobytes samples) = 2 * len samples.
Proof.
  unfold tobytes, len. induction samples as [|z l IH]; [reflexivity |].
  cbn [List.map concat]. rewrite length_app. simpl length.
  rewrite Nat2Z.inj_add, IH. simpl. lia.
Qed.

(** X20. One session: on an idle recorder whose device works, [start],
    then the delivery of at least one block, then [stop], returns the path
    of a new file and leaves the recorder idle with an empty queue.  The
    file is mono with two bytes per sample at the recorder's rate, and its
    data are the samples of the delivered blocks in the order of arrival,
    two bytes each; blocks that were queued before [start] are not in it,
    and no other file changes. *)
Theorem recording_session (w : world) (b : block) (bs : list block) :
  _recording w = false ->
  open_error w = None ->
  start_error w = None ->
  let run := bind start (fun _ => bind (deliver (b :: bs)) (fun _ => stop)) in
  (run w).2 = Return (new_wav w) /\
  wavs w !! new_wav w = None /\
  wavs (run w).1 !! new_wav w
  = Some (mk_wav 1 2 (_sample_rate w) (tobytes (concat (b :: bs)))) /\
  len (tobytes (concat (b :: bs))) = 2 * len (concat (b :: bs)) /\
  (forall q, q <> new_wav w -> wavs (run w).1 !! q = wavs w !! q) /\
  _recording (run w).1 = false /\
  _queue (run w).1 = [] /\
  _stream (run w).1 = false.
Proof.
  intros Hidle Hopen Hstart run.
  assert (Hrun : run w
                 = (mk_world (_sample_rate w) [] false false (open_error w)
                      (start_error w)
                      (<[new_wav w := mk_wav 1 2 (_sample_rate w)
                                         (tobytes (concat (b :: bs)))]> (wavs w)),
                    Return (new_wav w))).
  { unfold run. destruct w as [rate queue stream rec oe se files].
    simpl in Hidle, Hopen, Hstart. subst rec oe se.
    erewrite bind_run; [| reflexivity].
    erewrite bind_run; [| apply deliver_run].
    reflexivity. }
  rewrite Hrun. cbn [fst snd wavs _recording _queue _stream].
  split; [reflexivity |].
  split; [apply not_elem_of_dom; unfold new_wav; apply is_fresh |].
  split; [apply lookup_insert_eq |].
  split; [apply tobytes_length |].
  split; [intros q Hq; now apply lookup_insert_ne |].
  repeat split.
Qed.

(** X21. A session without audio: on an idle recorder whose device works,
    [start] followed at once by [stop] raises [ValueError] and writes no
    file; the stream is closed and the recorder is idle again, so that a
    new [start] succeeds. *)
Theorem empty_session (w : world) :
  _recording w = false ->
  open_error w = None ->
  start_error w = None ->
  (bind start (fun _ => stop) w).2 = Raise ValueError /\
  wavs (bind start (fun _ => stop) w).1 = wavs w /\
  _recording (bind start (fun _ => stop) w).1 = false /\
  _stream (bind start (fun _ => stop) w).1 = false /\
  (start (bind start (fun _ => stop) w).1).2 = Return tt.
Proof.
  intros Hidle Hopen Hstart.
  assert (Hrun : bind start (fun _ => stop) w
                 = (mk_world (_sample_rate w) [] false false (open_error w)
                      (start_error w) (wavs w),
                    Raise ValueError)).
  { destruct w as [rate queue stream rec oe se files].
    simpl in Hidle, Hopen, Hstart. subst rec oe se. reflexivity. }
  rewrite Hrun. cbn [fst snd wavs _recording _stream].
  repeat split. unfold start. cbn [_recording open_error start_error].
  now rewrite Hopen, Hstart.
Qed.

(** X22. Misuse changes nothing: [stop] on a recorder that is not
    recording raises [RuntimeError] and leaves it as it was; and during a
    session, after [start] and the delivery of some blocks, a second
    [start] raises [RuntimeError] while the recorder keeps recording with
    every delivered block still queued. *)
Theorem misuse_keeps_state (w : world) (bs : list block) :
  (_recording w = false -> stop w = (w, Raise RuntimeError)) /\
  (_recording w = false -> open_error w = None -> start_error w = None ->
   bind start (fun _ => bind (deliver bs) (fun _ => start)) w
   = (mk_world (_sample_rate w) bs true true (open_error w) (start_error w)
        (wavs w),
      Raise RuntimeError)).
Proof.
  split.
  - intros Hidle. unfold stop. now rewrite Hidle.
  - intros Hidle Hopen Hstart.
    destruct w as [rate queue stream rec oe se files].
    simpl in Hidle, Hopen, Hstart. subst rec oe se.
    erewrite bind_run; [| reflexivity].
    erewrite bind_run; [| apply deliver_run].
    reflexivity.
Qed.

(** X23. When the device cannot be opened or started, [start] raises the
    device's error and the recorder stays idle, so that [stop] raises
    [RuntimeError] and no file is written. *)
Theorem device_error (w : world) (e : exn) :
  _recording w = false ->
  open_error w = Some e \/ (open_error w = None /\ start_error w = Some e) ->
  (start w).2 = Raise e /\
  _recording (start w).1 = false /\
  wavs (start w).1 = wavs w /\
  (stop (start w).1).2 = Raise RuntimeError /\
  wavs (stop (start w).1).1 = wavs w.
Proof.
  intros Hidle Herr. destruct w as [rate queue stream rec oe se files].
  simpl in Hidle, Herr. subst rec.
  destruct Herr as [-> | [-> ->]]; repeat split.
Qed.

Lemma recording_session_witness :
  (bind start (fun _ => bind (deliver [[1; 2]; [-3]]) (fun _ => stop))
     (init 16000 None None ∅)).2
  = Return (new_wav (init 16000 None None ∅)) /\
  wavs (bind start (fun _ => bind (deliver [[1; 2]; [-3]]) (fun _ => stop))
          (init 16000 None None ∅)).1 !! new_wav (init 16000 None None ∅)
  = Some (mk_wav 1 2 16000 (tobytes (concat [[1; 2]; [-3]]))).
Proof.
  destruct (recording_session (init 16000 None None ∅) [1; 2] [[-3]]
              eq_refl eq_refl eq_refl) as (Hret & _ & Hfile & _).
  split; [exact Hret | exact Hfile].
Defined.

Lemma empty_session_witness :
  (bind start (fun _ => stop) (init 16000 None None ∅)).2 = Raise ValueError /\
  wavs (bind start (fun _ => stop) (init 16000 None None ∅)).1 = ∅.
Proof.
  destruct (empty_session (init 16000 None None ∅) eq_refl eq_refl eq_refl)
    as (Hret & Hfiles & _).
  split; [exact Hret | exact Hfiles].
Defined.

Lemma misuse_keeps_state_witness :
  stop (init 16000 None None ∅) = (init 16000 None None ∅, Raise RuntimeError) /\
  bind start (fun _ => bind (deliver [[1; 2]]) (fun _ => start))
    (init 16000 None None ∅)
  = (mk_world 16000 [[1; 2]] true true None None ∅, Raise RuntimeError).
Proof.
  destruct (misuse_keeps_state (init 16000 None None ∅) [[1; 2]]) as [Hstop Hstart].
  split; [apply Hstop; reflexivity | apply Hstart; reflexivity].
Defined.

Lemma device_error_witness :
  (start (init 16000 (Some OSError) None ∅)).2 = Raise OSError /\
  _recording (start (init 16000 (Some OSError) None ∅)).1 = false /\
  (stop (start (init 16000 (Some OSError) None ∅)).1).2 = Raise RuntimeError.
Proof.
  destruct (device_error (init 16000 (Some OSError) None ∅) OSError eq_refl)
    as (H1 & H2 & _ & H4 & _).
  - left. reflexivity.
  - split; [exact H1 | split; [exact H2 | exact H4]].
Defined.

End RecorderMore.

(** ** File names *)

Module WriterMore.
Import Py Writer.

Lemma lstrip_chars_split (f : N -> bool) (s : str) :
  exists pre,
    s = pre ++ lstrip_chars f s /\ forallb f pre = true /\
    match lstrip_chars f s with c :: _ => f c = false | [] => True end.
Proof.
  induction s as [|c s (pre & Hs & Hpre & Hhead)]; simpl.
  - now exists [].
  - destruct (f c) eqn:Hc.
    + exists (c :: pre). simpl. rewrite Hc, Hpre. repeat split; [now f_equal | exact Hhead].
    + exists []. now repeat split.
Qed.

Lemma rstrip_chars_split (f : N -> bool) (s : str) :
  exists post,
    s = rstrip_chars f s ++ post /\ forallb f post = true /\
    match last (rstrip_chars f s) with Some c => f c = false | None => True end.
Proof.
  unfold rstrip_chars.
  destruct (lstrip_chars_split f (rev s)) as (pre & Hs & Hpre & Hhead).
  exists (rev pre). repeat split.
  - rewrite <- rev_app_distr, <- Hs. now rewrite rev_involutive.
  - rewrite forallb_forall in *. intros x Hx. apply Hpre. now apply in_rev.
  - destruct (lstrip_chars f (rev s)) as [|c t]; [exact I |].
    simpl. now rewrite last_snoc.
Qed.

Lemma last_of_suffix {A} (pre t : list A) :
  t <> [] -> last (pre ++ t) = last t.
Proof.
  intros Ht. destruct t as [|x t _] using rev_ind; [contradiction |].
  now rewrite app_assoc, !last_snoc.
Qed.

(** A stripped text: what was cut off at both ends, and what its ends
    are. *)
Lemma strip_chars_split (f : N -> bool) (s : str) :
  exists pre post,
    s = pre ++ strip_chars f s ++ post /\
    forallb f pre = true /\ forallb f post = true /\
    match strip_chars f s with c :: _ => f c = false | [] => True end /\
    match last (strip_chars f s) with Some c => f c = false | None => True end.
Proof.
  unfold strip_chars.
  destruct (rstrip_chars_split f s) as (post & Hs & Hpost & Hlast).
  destruct (lstrip_chars_split f (rstrip_chars f s)) as (pre & Hr & Hpre & Hhead).
  exists pre, post. repeat split; try assumption.
  - rewrite app_assoc, <- Hr. exact Hs.
  - destruct (lstrip_chars f (rstrip_chars f s)) as [|c t] eqn:Hl; [exact I |].
    rewrite Hr, last_of_suffix in Hlast by discriminate. exact Hlast.
Qed.

Lemma lstrip_chars_fixed (f : N -> bool) (s : str) :
  match s with c :: _ => f c = false | [] => True end -> lstrip_chars f s = s.
Proof. destruct s as [|c s]; simpl; [reflexivity | now intros ->]. Qed.

Lemma strip_chars_fixed (f : N -> bool) (s : str) :
  match s with c :: _ => f c = false | [] => True end ->
  match last s with Some c => f c = false | None => True end ->
  strip_chars f s = s.
Proof.
  intros Hhead Hlast. unfold strip_chars, rstrip_chars.
  rewrite (lstrip_chars_fixed f (rev s)).
  - rewrite rev_involutive. now apply lstrip_chars_fixed.
  - destruct s as [|x s _] using rev_ind; [exact I |].
    rewrite last_snoc in Hlast. now rewrite rev_app_distr.
Qed.

(** *** The two substitutions *)

Lemma ordinary_not_filler (c : N) : ordinary c = true -> filler c = false.
Proof. unfold ordinary. now intros [_ H%negb_true_iff]%andb_prop. Qed.

Lemma ordinary_not_unsafe (c : N) : ordinary c = true -> unsafe c = false.
Proof. unfold ordinary. now intros [H%negb_true_iff _]%andb_prop. Qed.

Lemma space_is_filler : filler space = true.
Proof. reflexivity. Qed.

Lemma space_or_dash_filler (c : N) : space_or_dash c = true -> filler c = true.
Proof.
  unfold space_or_dash, filler.
  intros [H%N.eqb_eq | H%N.eqb_eq]%orb_prop; subst; reflexivity.
Qed.

Lemma filter_ordinary_fillers (l : str) :
  forallb filler l = true -> List.filter ordinary l = [].
Proof.
  induction l as [|c l IH]; simpl; [reflexivity |].
  intros [Hc Hl]%andb_prop. unfold ordinary at 1. rewrite Hc.
  rewrite andb_false_r. now apply IH.
Qed.

Lemma replace_unsafe_ordinary (s : str) :
  List.filter ordinary (replace_unsafe s) = List.filter ordinary s.
Proof.
  induction s as [|c s IH]; simpl; [reflexivity |].
  destruct (unsafe c) eqn:Hc.
  - replace (ordinary dash) with false by reflexivity.
    unfold ordinary at 2. rewrite Hc. simpl. exact IH.
  - now rewrite IH.
Qed.

Lemma replace_unsafe_safe (s : str) :
  Forall (fun c => unsafe c = false) (replace_unsafe s).
Proof.
  induction s as [|c s IH]; simpl; constructor; [| exact IH].
  destruct (unsafe c) eqn:Hc; [reflexivity | exact Hc].
Qed.

Lemma collapse_ordinary (s : str) (b : bool) :
  List.filter ordinary (collapse b s) = List.filter ordinary s.
Proof.
  revert b. induction s as [|c s IH]; intros b; simpl; [reflexivity |].
  destruct (filler c) eqn:Hc.
  - assert (Ho : ordinary c = false)
      by (unfold ordinary; rewrite Hc; apply andb_false_r).
    rewrite Ho. destruct b; simpl; apply IH.
  - simpl. now rewrite IH.
Qed.

(** After the collapse every character is an ordinary one or a space,
    and no two spaces are in a row. *)
Lemma collapse_tidy (s : str) (b : bool) :
  Forall (fun c => unsafe c = false) s ->
  Forall (fun c => ordinary c = true \/ c = space) (collapse b s) /\
  single_spaced b (collapse b s) = true.
Proof.
  intros Hs. revert b. induction Hs as [|c s Hc Hs IH]; intros b; simpl.
  - split; [constructor | reflexivity].
  - destruct (filler c) eqn:Hf.
    + destruct b.
      * apply IH.
      * destruct (IH true) as [Hall Hsp]. split.
        -- constructor; [now right | exact Hall].
        -- simpl. exact Hsp.
    + destruct (IH false) as [Hall Hsp]. split.
      * constructor; [| exact Hall]. left. unfold ordinary. now rewrite Hc, Hf.
      * simpl. destruct (N.eqb_spec c space) as [-> | _]; [discriminate Hf |].
        exact Hsp.
Qed.

Lemma single_spaced_weaken (s : str) (b : bool) :
  single_spaced b s = true -> single_spaced false s = true.
Proof.
  destruct s as [|c s]; simpl; [reflexivity |].
  destruct (c =? space)%N; [| easy]. now intros [_ ->]%andb_prop.
Qed.

Lemma single_spaced_suffix (pre t : str) (b : bool) :
  single_spaced b (pre ++ t) = true -> single_spaced false t = true.
Proof.
  revert b. induction pre as [|c pre IH]; intros b; simpl.
  - apply single_spaced_weaken.
  - destruct (c =? space)%N.
    + intros [_ H]%andb_prop. now apply (IH true).
    + apply IH.
Qed.

Lemma single_spaced_prefix (t post : str) (b : bool) :
  single_spaced b (t ++ post) = true -> single_spaced b t = true.
Proof.
  revert b. induction t as [|c t IH]; intros b; simpl; [reflexivity |].
  destruct (c =? space)%N.
  - intros [-> H]%andb_prop. simpl. now apply (IH true).
  - apply IH.
Qed.

(** What [safe_filename] returns, in one place. *)
Lemma safe_filename_tidy (title : str) :
  Forall (fun c => ordinary c = true \/ c = space) (safe_filename title) /\
  single_spaced false (safe_filename title) = true /\
  match safe_filename title with
  | c :: _ => space_or_dash c = false
  | [] => True
  end /\
  match last (safe_filename title) with
  | Some c => space_or_dash c = false
  | None => True
  end.
Proof.
  unfold safe_filename.
  destruct (collapse_tidy (replace_unsafe title) false (replace_unsafe_safe title))
    as [Hall Hsp].
  destruct (strip_chars_split space_or_dash (collapse false (replace_unsafe title)))
    as (pre & post & Hs & _ & _ & Hhead & Hlast).
  rewrite Hs in Hall, Hsp. repeat split; try assumption.
  - apply Forall_app in Hall as [_ Hall]. now apply Forall_app in Hall as [Hall _].
  - apply single_spaced_suffix in Hsp. now apply single_spaced_prefix in Hsp.
Qed.

Lemma collapse_fixed (s : str) (b : bool) :
  Forall (fun c => ordinary c = true \/ c = space) s ->
  single_spaced b s = true ->
  collapse b s = s.
Proof.
  intros Hs. revert b. induction Hs as [|c s Hc Hs IH]; intros b; simpl;
    [reflexivity |].
  destruct Hc as [Hc | ->].
  - rewrite (ordinary_not_filler c Hc).
    destruct (N.eqb_spec c space) as [-> | _]; [discriminate Hc |].
    intros Hsp. now rewrite IH.
  - simpl. intros [Hb Hsp]%andb_prop. apply negb_true_iff in Hb. subst b.
    now rewrite IH.
Qed.

Lemma replace_unsafe_fixed (s : str) :
  Forall (fun c => ordinary c = true \/ c = space) s -> replace_unsafe s = s.
Proof.
  induction 1 as [|c s Hc Hs IH]; simpl; [reflexivity |].
  rewrite IH. destruct Hc as [Hc | ->]; [| reflexivity].
  now rewrite (ordinary_not_unsafe c Hc).
Qed.

(** X24. The name [safe_filename] returns holds none of the nine unsafe
    characters, no dash and no white space other than the space; it has
    no two spaces in a row and neither starts nor ends with a space. *)
Theorem safe_filename_clean (title : str) :
  Forall (fun c => unsafe c = false /\ c <> dash /\
                   (isspace c = true -> c = space))
    (safe_filename title) /\
  single_spaced false (safe_filename title) = true /\
  head (safe_filename title) <> Some space /\
  last (safe_filename title) <> Some space.
Proof.
  destruct (safe_filename_tidy title) as (Hall & Hsp & Hhead & Hlast).
  split; [| split; [exact Hsp | split]].
  - eapply Forall_impl; [exact Hall |]. intros c [Hc | ->].
    + pose proof (ordinary_not_filler c Hc) as Hf.
      pose proof (ordinary_not_unsafe c Hc) as Hu.
      unfold filler in Hf. apply orb_false_elim in Hf as [Hspace Hdash].
      split; [exact Hu | split; [now apply N.eqb_neq | congruence]].
    + split; [reflexivity | split; [discriminate | reflexivity]].
  - destruct (safe_filename title) as [|c l]; [discriminate |].
    simpl. intros [= ->]. discriminate Hhead.
  - destruct (last (safe_filename title)) as [c|]; [| discriminate].
    intros [= ->]. discriminate Hlast.
Qed.

(** X25. [safe_filename] is idempotent: a name it returned is returned as
    it is. *)
Theorem safe_filename_idempotent (title : str) :
  safe_filename (safe_filename title) = safe_filename title.
Proof.
  destruct (safe_filename_tidy title) as (Hall & Hsp & Hhead & Hlast).
  unfold safe_filename at 1.
  rewrite (replace_unsafe_fixed _ Hall), (collapse_fixed _ _ Hall Hsp).
  now apply strip_chars_fixed.
Qed.

(** X26. [safe_filename] keeps every ordinary character of the title, in
    order, and adds none: only unsafe characters, dashes and white space
    are replaced or dropped.  So the name is empty exactly when the title
    has no ordinary character. *)
Theorem safe_filename_keeps_ordinary (title : str) :
  List.filter ordinary (safe_filename title) = List.filter ordinary title /\
  (safe_filename title = [] <-> List.filter ordinary title = []).
Proof.
  assert (Hkeep : List.filter ordinary (safe_filename title)
                  = List.filter ordinary title).
  { rewrite <- (replace_unsafe_ordinary title),
      <- (collapse_ordinary (replace_unsafe title) false).
    unfold safe_filename.
    destruct (strip_chars_split space_or_dash
                (collapse false (replace_unsafe title)))
      as (pre & post & Hs & Hpre & Hpost & _).
    rewrite Hs at 2. rewrite !List.filter_app.
    rewrite (filter_ordinary_fillers pre), (filter_ordinary_fillers post).
    - now rewrite app_nil_r.
    - rewrite forallb_forall in *. intros x Hx.
      now apply space_or_dash_filler, Hpost.
    - rewrite forallb_forall in *. intros x Hx.
      now apply space_or_dash_filler, Hpre. }
  split; [exact Hkeep | split].
  - intros Hnil. now rewrite <- Hkeep, Hnil.
  - intros Hnone. rewrite <- Hkeep in Hnone.
    destruct (safe_filename_tidy title) as (Hall & _ & Hhead & _).
    destruct (safe_filename title) as [|c l]; [reflexivity |].
    apply Forall_cons in Hall as [[Hc | ->] _].
    + simpl in Hnone. rewrite Hc in Hnone. discriminate.
    + discriminate Hhead.
Qed.

(** *** Unused paths *)

Lemma fmt_d_inj (n m : Z) : 0 <= n -> 0 <= m -> fmt_d n = fmt_d m -> n = m.
Proof.
  intros Hn Hm. unfold fmt_d.
  intros H%TranscribeMore.digits_of_uint_inj%DecimalN.Unsigned.to_uint_inj.
  lia.
Qed.

Lemma candidate_inj (p : file_path) (j k : Z) :
  0 <= j -> 0 <= k -> candidate p j = candidate p k -> j = k.
Proof.
  intros Hj Hk. unfold candidate. intros [= H].
  apply app_inv_head in H. injection H as H. apply app_inv_tail in H.
  now apply fmt_d_inj.
Qed.

(** The loop returns the first unused candidate from [counter] on. *)
Lemma unique_loop_some (existing : gset file_path) (p : file_path) (fuel : nat) :
  forall (counter : Z) (q : file_path),
    unique_loop fuel existing p counter = Some q ->
    (q ∉ existing) /\
    exists k, counter <= k /\ q = candidate p k /\
              forall j, counter <= j < k -> candidate p j ∈ existing.
Proof.
  induction fuel as [|fuel IH]; intros counter q; simpl; [discriminate |].
  destruct (decide (candidate p counter ∈ existing)) as [Hin | Hout].
  - intros (Hq & k & Hk & Heq & Hbelow)%IH. split; [exact Hq |].
    exists k. split; [lia | split; [exact Heq |]].
    intros j Hj. destruct (Z.eq_dec j counter) as [-> | Hne]; [exact Hin |].
    apply Hbelow. lia.
  - intros [= <-]. split; [exact Hout |].
    exists counter. split; [lia | split; [reflexivity |]]. intros j Hj. lia.
Qed.

(** A run that outlives its fuel has met a used candidate at every
    step. *)
Lemma unique_loop_none (existing : gset file_path) (p : file_path) (fuel : nat) :
  forall counter : Z,
    unique_loop fuel existing p counter = None ->
    forall j, counter <= j < counter + Z.of_nat fuel -> candidate p j ∈ existing.
Proof.
  induction fuel as [|fuel IH]; intros counter; simpl; [intros _ j Hj; lia |].
  destruct (decide (candidate p counter ∈ existing)) as [Hin | Hout];
    [| discriminate].
  intros Hnone j Hj. destruct (Z.eq_dec j counter) as [-> | Hne]; [exact Hin |].
  apply (IH _ Hnone). lia.
Qed.

(** Only as many consecutive candidates can be used as there are paths. *)
Lemma used_candidates (existing : gset file_path) (p : file_path)
    (counter : Z) (n : nat) :
  0 <= counter ->
  (forall j, counter <= j < counter + Z.of_nat n -> candidate p j ∈ existing) ->
  (n <= size existing)%nat.
Proof.
  intros Hc Hused.
  set (l := candidate p <$> seqZ counter (Z.of_nat n)).
  assert (Hnd : NoDup l).
  { apply NoDup_fmap_2_strong; [| apply NoDup_seqZ].
    intros x y Hx%elem_of_seqZ Hy%elem_of_seqZ. apply candidate_inj; lia. }
  assert (Hsub : (list_to_set l : gset file_path) ⊆ existing).
  { intros q Hq%elem_of_list_to_set.
    apply list_elem_of_fmap in Hq as (j & -> & Hj%elem_of_seqZ).
    now apply Hused. }
  apply subseteq_size in Hsub. rewrite (size_list_to_set l Hnd) in Hsub.
  unfold l in Hsub. rewrite length_fmap, length_seqZ in Hsub. lia.
Qed.

(** X27. [_unique_path] terminates: any fuel above the number of existing
    paths makes it return.  What it returns does not exist and lies in the
    same directory; it is the path itself when that is unused, and
    otherwise the candidate with the least counter, from 1 on, that is
    unused. *)
Theorem unique_path_is_unused (existing : gset file_path) (p : file_path) :
  (forall fuel : nat,
     (size existing < fuel)%nat -> is_Some (_unique_path fuel existing p)) /\
  (forall (fuel : nat) (q : file_path),
     _unique_path fuel existing p = Some q ->
     (q ∉ existing) /\ q.1 = p.1 /\
     ((p ∉ existing) -> q = p) /\
     (p ∈ existing ->
      exists k, 1 <= k /\ q = candidate p k /\
                forall j, 1 <= j < k -> candidate p j ∈ existing)).
Proof.
  split.
  - intros fuel Hfuel. unfold _unique_path.
    destruct (decide (p ∈ existing)) as [Hin | Hout]; [| eauto].
    destruct (unique_loop fuel existing p 1) as [q|] eqn:Hloop; [eauto |].
    pose proof (used_candidates existing p 1 fuel ltac:(lia)
                  (unique_loop_none existing p fuel 1 Hloop)).
    lia.
  - intros fuel q. unfold _unique_path.
    destruct (decide (p ∈ existing)) as [Hin | Hout].
    + intros (Hq & k & Hk & -> & Hbelow)%unique_loop_some.
      split; [exact Hq | split; [reflexivity | split; [contradiction |]]].
      intros _. exists k. auto.
    + intros [= <-]. split; [exact Hout | split; [reflexivity | split; [auto |]]].
      contradiction.
Qed.

Lemma unique_path_is_unused_witness :
  is_Some (_unique_path 2 {[ ([lit "Inbox"], lit "Sets.md") ]}
             ([lit "Inbox"], lit "Sets.md")) /\
  _unique_path 2 {[ ([lit "Inbox"], lit "Sets.md") ]}
    ([lit "Inbox"], lit "Sets.md")
  = Some ([lit "Inbox"], lit "Sets_1.md").
Proof.
  split.
  - apply (proj1 (unique_path_is_unused {[ ([lit "Inbox"], lit "Sets.md") ]}
                    ([lit "Inbox"], lit "Sets.md"))).
    rewrite size_singleton. lia.
  - vm_compute. reflexivity.
Defined.

End WriterMore.

(** ** The course of the hour *)

Module ScheduleMore.
Import Py State Schedule.

Section Int.

Variable int : str -> option Z.

Lemma replace_on_the_clock (h m : Z) :
  on_the_clock h m -> replace h m = Some (clock h m 0 0).
Proof.
  intros [Hh Hm]. unfold replace.
  replace (0 <=? h) with true by (symmetry; apply Z.leb_le; lia).
  replace (h <=? 23) with true by (symmetry; apply Z.leb_le; lia).
  replace (0 <=? m) with true by (symmetry; apply Z.leb_le; lia).
  replace (m <=? 59) with true by (symmetry; apply Z.leb_le; lia).
  reflexivity.
Qed.

Lemma replace_some (h m t : Z) :
  replace h m = Some t -> on_the_clock h m /\ t = clock h m 0 0.
Proof.
  unfold replace, on_the_clock.
  destruct (0 <=? h) eqn:H1; [| discriminate].
  destruct (h <=? 23) eqn:H2; [| discriminate].
  destruct (0 <=? m) eqn:H3; [| discriminate].
  destruct (m <=? 59) eqn:H4; [| discriminate].
  simpl. intros [= <-].
  apply Z.leb_le in H1, H2, H3, H4. auto.
Qed.

Lemma replace_off_the_clock (h m : Z) :
  ~ on_the_clock h m -> replace h m = None.
Proof.
  intros Hoff. destruct (replace h m) as [t|] eqn:Hr; [| reflexivity].
  apply replace_some in Hr as [Hon _]. contradiction.
Qed.

(** The loop goes on behind an entry it passes over. *)
Lemma scan_passed_over (now : datetime) (default_course : pyobj)
    (before rest : list loaded) :
  Forall (passed_over int now) before ->
  scan int now default_course (before ++ rest)
  = scan int now default_course rest.
Proof.
  induction 1 as [| e before He _ IH]; [reflexivity |].
  destruct e as [entry | o]; [| destruct He].
  simpl. unfold passed_over, time_of in He.
  destruct (parse_range int (default (OStr []) (entry !! lit "time")))
    as [[[[sh sm] eh] em] |]; [| exact IH].
  destruct He as (Hs & He & Hout).
  rewrite (replace_on_the_clock _ _ Hs), (replace_on_the_clock _ _ He).
  replace ((clock sh sm 0 0 - buffer_minutes * minute_us
            <=? since_midnight now)
           && (since_midnight now
               <=? clock eh em 0 0 + buffer_minutes * minute_us))
    with false; [exact IH |].
  symmetry. apply andb_false_iff.
  unfold clock, buffer_minutes, minute_us in *.
  destruct Hout as [Hearly | Hlate]; [left | right]; apply Z.leb_gt; lia.
Qed.

(** X28. [_infer_course] gives the course and the title prefix of the
    first entry of the day whose time, widened by a quarter of an hour at
    both ends, bounds included, holds the current time; entries before it
    whose time is not read, or does not hold the current time, are passed
    over.  A key the entry lacks gives the default course, and the prefix
    Lecture. *)
Theorem first_lecture_in_window (days : gmap str day_value)
    (default_course : option pyobj) (now : datetime)
    (before after : list loaded) (entry : gmap str pyobj)
    (start_h start_m end_h end_m : Z) :
  days !! day_name now = Some (Items (before ++ LDict entry :: after)) ->
  Forall (passed_over int now) before ->
  time_of int entry = Some (start_h, start_m, end_h, end_m) ->
  on_the_clock start_h start_m ->
  on_the_clock end_h end_m ->
  clock start_h (start_m - 15) 0 0 <= since_midnight now
    <= clock end_h (end_m + 15) 0 0 ->
  _infer_course int (Mapping (Some (Days days)) default_course) now
  = Found
      (default (default (OStr (lit "Lecture")) default_course)
         (entry !! lit "course"))
      (default (OStr (lit "Lecture")) (entry !! lit "title_prefix")).
Proof.
  intros Hday Hbefore Htime Hs He Hin.
  unfold _infer_course. simpl. rewrite Hday. simpl.
  rewrite (scan_passed_over _ _ _ _ Hbefore). simpl.
  unfold time_of in Htime. rewrite Htime.
  rewrite (replace_on_the_clock _ _ Hs), (replace_on_the_clock _ _ He).
  replace ((clock start_h start_m 0 0 - buffer_minutes * minute_us
            <=? since_midnight now)
           && (since_midnight now
               <=? clock end_h end_m 0 0 + buffer_minutes * minute_us))
    with true; [reflexivity |].
  symmetry. apply andb_true_iff.
  unfold clock, buffer_minutes, minute_us in *.
  split; apply Z.leb_le; lia.
Qed.

(** X29. [_infer_course] never gives a course out of its hour: what it
    returns is the default course with the prefix Lecture, or comes from
    an entry of the current day whose time is read as two times of the day
    and, widened by a quarter of an hour at both ends, holds the current
    time. *)
Theorem course_is_on_schedule (cfg : config) (now : datetime)
    (course title_prefix : pyobj) :
  _infer_course int cfg now = Found course title_prefix ->
  exists default_course : option pyobj,
    (exists schedule, cfg = Mapping schedule default_course) /\
    ((course = default (OStr (lit "Lecture")) default_course /\
      title_prefix = OStr (lit "Lecture")) \/
     exists (days : gmap str day_value) (entries : list loaded)
            (entry : gmap str pyobj) (start_h start_m end_h end_m : Z),
       cfg = Mapping (Some (Days days)) default_course /\
       days !! day_name now = Some (Items entries) /\
       LDict entry ∈ entries /\
       time_of int entry = Some (start_h, start_m, end_h, end_m) /\
       on_the_clock start_h start_m /\
       on_the_clock end_h end_m /\
       clock start_h (start_m - 15) 0 0 <= since_midnight now
         <= clock end_h (end_m + 15) 0 0 /\
       course = default (default (OStr (lit "Lecture")) default_course)
                  (entry !! lit "course") /\
       title_prefix = default (OStr (lit "Lecture"))
                        (entry !! lit "title_prefix")).
Proof.
  assert (Hscan : forall dc entries,
             scan int now dc entries = Found course title_prefix ->
             (course = dc /\ title_prefix = OStr (lit "Lecture")) \/
             exists (entry : gmap str pyobj) (sh sm eh em : Z),
               LDict entry ∈ entries /\
               time_of int entry = Some (sh, sm, eh, em) /\
               on_the_clock sh sm /\ on_the_clock eh em /\
               clock sh (sm - 15) 0 0 <= since_midnight now
                 <= clock eh (em + 15) 0 0 /\
               course = default dc (entry !! lit "course") /\
               title_prefix = default (OStr (lit "Lecture"))
                                (entry !! lit "title_prefix")).
  { intros dc entries. induction entries as [| e entries IH]; simpl.
    - intros [= <- <-]. left. auto.
    - assert (Hrest : scan int now dc entries = Found course title_prefix ->
                      (course = dc /\ title_prefix = OStr (lit "Lecture")) \/
                      exists (entry : gmap str pyobj) (sh sm eh em : Z),
                        LDict entry ∈ e :: entries /\
                        time_of int entry = Some (sh, sm, eh, em) /\
                        on_the_clock sh sm /\ on_the_clock eh em /\
                        clock sh (sm - 15) 0 0 <= since_midnight now
                          <= clock eh (em + 15) 0 0 /\
                        course = default dc (entry !! lit "course") /\
                        title_prefix = default (OStr (lit "Lecture"))
                                         (entry !! lit "title_prefix")).
      { intros [Hd | (entry & sh & sm & eh & em & Hin & Hrest)]%IH;
          [left; exact Hd | right].
        exists entry, sh, sm, eh, em. split; [now apply elem_of_cons; right |].
        exact Hrest. }
      destruct e as [entry | o]; [| discriminate].
      destruct (parse_range int (default (OStr []) (entry !! lit "time")))
        as [[[[sh sm] eh] em] |] eqn:Htime; [| exact Hrest].
      destruct (replace sh sm) as [start_dt |] eqn:Hs; [| discriminate].
      destruct (replace eh em) as [end_dt |] eqn:He; [| discriminate].
      apply replace_some in Hs as [Hs ->], He as [He ->].
      destruct ((clock sh sm 0 0 - buffer_minutes * minute_us
                 <=? since_midnight now)
                && (since_midnight now
                    <=? clock eh em 0 0 + buffer_minutes * minute_us))
        eqn:Hwin; [| exact Hrest].
      intros [= <- <-]. right. exists entry, sh, sm, eh, em.
      split; [apply elem_of_cons; now left |].
      split; [exact Htime |]. split; [exact Hs |]. split; [exact He |].
      split; [| split; reflexivity].
      apply andb_true_iff in Hwin as [H1%Z.leb_le H2%Z.leb_le].
      unfold clock, buffer_minutes, minute_us in *. lia. }
  unfold _infer_course.
  destruct cfg as [schedule default_course |]; [| discriminate].
  intros Hfound. exists default_course. split; [eauto |].
  destruct schedule as [[days |] |]; simpl in Hfound; try discriminate.
  - destruct (days !! day_name now) as [[entries |] |] eqn:Hday;
      simpl in Hfound; try discriminate.
    + apply Hscan in Hfound
        as [Hd | (entry & sh & sm & eh & em & Hin & Hrest)]; [left; exact Hd |].
      right. exists days, entries, entry, sh, sm, eh, em. auto.
    + injection Hfound as <- <-. left. auto.
  - rewrite lookup_empty in Hfound. simpl in Hfound.
    injection Hfound as <- <-. left. auto.
Qed.

(** X30. An entry whose time is read as numbers that are no time of the
    day, an hour of 24 say, is not passed over: when the loop reaches it,
    [_infer_course] raises, whatever the current time and the entries
    after it. *)
Theorem time_off_the_clock_raises (days : gmap str day_value)
    (default_course : option pyobj) (now : datetime)
    (before after : list loaded) (entry : gmap str pyobj)
    (start_h start_m end_h end_m : Z) :
  days !! day_name now = Some (Items (before ++ LDict entry :: after)) ->
  Forall (passed_over int now) before ->
  time_of int entry = Some (start_h, start_m, end_h, end_m) ->
  ~ (on_the_clock start_h start_m /\ on_the_clock end_h end_m) ->
  _infer_course int (Mapping (Some (Days days)) default_course) now
  = Raised BadTime.
Proof.
  intros Hday Hbefore Htime Hoff.
  unfold _infer_course. simpl. rewrite Hday. simpl.
  rewrite (scan_passed_over _ _ _ _ Hbefore). simpl.
  unfold time_of in Htime. rewrite Htime.
  destruct (replace start_h start_m) as [start_dt |] eqn:Hs; [| reflexivity].
  destruct (replace end_h end_m) as [end_dt |] eqn:He; [| reflexivity].
  apply replace_some in Hs as [Hs _], He as [He _].
  destruct Hoff. auto.
Qed.

End Int.

Lemma first_lecture_in_window_witness :
  _infer_course decimal week (mk_datetime (lit "Monday") (clock 9 45 0 0))
  = Found (OStr (lit "CS 301")) (OStr (lit "Lecture")).
Proof.
  refine (eq_trans
            (first_lecture_in_window decimal
               {[ lit "Monday" := Items monday ]} None
               (mk_datetime (lit "Monday") (clock 9 45 0 0))
               [LDict {[ lit "course" := OStr (lit "Office hours") ]}]
               [lecture "11:30-12:45" "MATH 240"]
               {[ lit "time" := OStr (lit "10:00 - 11:15");
                  lit "course" := OStr (lit "CS 301") ]}
               10 0 11 15 _ _ _ _ _ _) _).
  - vm_compute. reflexivity.
  - constructor; [| constructor]. vm_compute. exact I.
  - vm_compute. reflexivity.
  - unfold on_the_clock. lia.
  - unfold on_the_clock. lia.
  - unfold clock. simpl. lia.
  - vm_compute. reflexivity.
Defined.

Lemma course_is_on_schedule_witness :
  _infer_course decimal week (mk_datetime (lit "Monday") (clock 11 30 0 1))
  = Found (OStr (lit "MATH 240")) (OStr (lit "Lecture")) /\
  exists default_course : option pyobj,
    (exists schedule, week = Mapping schedule default_course) /\
    ((OStr (lit "MATH 240") = default (OStr (lit "Lecture")) default_course /\
      OStr (lit "Lecture") = OStr (lit "Lecture")) \/
     exists (days : gmap str day_value) (entries : list loaded)
            (entry : gmap str pyobj) (start_h start_m end_h end_m : Z),
       week = Mapping (Some (Days days)) default_course /\
       days !! lit "Monday" = Some (Items entries) /\
       LDict entry ∈ entries /\
       time_of decimal entry = Some (start_h, start_m, end_h, end_m) /\
       on_the_clock start_h start_m /\
       on_the_clock end_h end_m /\
       clock start_h (start_m - 15) 0 0 <= clock 11 30 0 1
         <= clock end_h (end_m + 15) 0 0 /\
       OStr (lit "MATH 240")
       = default (default (OStr (lit "Lecture")) default_course)
           (entry !! lit "course") /\
       OStr (lit "Lecture")
       = default (OStr (lit "Lecture")) (entry !! lit "title_prefix")).
Proof.
  assert (H : _infer_course decimal week
                (mk_datetime (lit "Monday") (clock 11 30 0 1))
              = Found (OStr (lit "MATH 240")) (OStr (lit "Lecture")))
    by (vm_compute; reflexivity).
  split; [exact H |].
  exact (course_is_on_schedule decimal week
           (mk_datetime (lit "Monday") (clock 11 30 0 1)) _ _ H).
Defined.

Lemma time_off_the_clock_raises_witness :
  _infer_course decimal late_week (mk_datetime (lit "Monday") (clock 8 0 0 0))
  = Raised BadTime.
Proof.
  apply (time_off_the_clock_raises decimal
           {[ lit "Monday" := Items [lecture "noon" "CS 301";
                                      lecture "23:00-24:00" "CS 302"] ]}
           (Some (OStr (lit "Seminar")))
           (mk_datetime (lit "Monday") (clock 8 0 0 0))
           [lecture "noon" "CS 301"] []
           {[ lit "time" := OStr (lit "23:00-24:00");
              lit "course" := OStr (lit "CS 302") ]}
           23 0 24 0).
  - vm_compute. reflexivity.
  - constructor; [| constructor]. vm_compute. exact I.
  - vm_compute. reflexivity.
  - unfold on_the_clock. lia.
Defined.

End ScheduleMore.
